(** * SMTP bridge: session handler and raw-message parser

    A shallow embedding of package [smtp] of the SMTP bridge
    (server.go: [handleConnection], [collectMailData], [parseMailData],
    [parseHeadersAndBody], [processMultipartMessage], [parseAddress],
    [Shutdown]) together with the properties of its specification.

    Go strings are byte strings; they are modelled by [string], one
    [ascii] per byte.  Go errors are modelled by their message. *)

From Stdlib Require Import ZArith NArith Lia Ascii String.
From stdpp Require Import base option list gmap strings.

Local Open Scope stdpp_scope.
Local Open Scope N_scope.

#[local] Arguments String.append !s1 s2 : simpl nomatch.

(** An [error] value is its message; [None] is Go's [nil]. *)
Abbreviation error := string (only parsing).

(* ===================================================================== *)
(** ** The functions of Go's package [strings] used by the server       *)
(* ===================================================================== *)

Module GoStrings.

(** [s[i:]] and [s[:i]] for an index within the string. *)
Fixpoint slice_from (i : nat) (s : string) : string :=
  match i, s with
  | O, _ => s
  | S i', String _ s' => slice_from i' s'
  | S _, EmptyString => EmptyString
  end.

Fixpoint slice_to (i : nat) (s : string) : string :=
  match i, s with
  | O, _ => EmptyString
  | S i', String c s' => String c (slice_to i' s')
  | S _, EmptyString => EmptyString
  end.

(** [strings.HasPrefix]. *)
Fixpoint HasPrefix (s prefix : string) : bool :=
  match prefix, s with
  | EmptyString, _ => true
  | String p prefix', String c s' =>
      if Ascii.eqb c p then HasPrefix s' prefix' else false
  | String _ _, EmptyString => false
  end.

(** [strings.Index]: the position of the first occurrence of [substr],
    [None] standing for Go's [-1]. *)
Fixpoint Index (s substr : string) : option nat :=
  if HasPrefix s substr then Some O
  else match s with
       | EmptyString => None
       | String _ s' => S <$> Index s' substr
       end.

(** [strings.Count] for a non-empty [substr]: the number of
    non-overlapping occurrences, found from the left.  Every occurrence
    consumes at least one byte, so [length s] rounds are enough. *)
Fixpoint Count_loop (rounds : nat) (s substr : string) : nat :=
  match rounds with
  | O => O
  | S rounds' =>
      match Index s substr with
      | None => O
      | Some i =>
          S (Count_loop rounds' (slice_from (i + String.length substr) s) substr)
      end
  end.

Definition Count (s substr : string) : nat :=
  Count_loop (String.length s) s substr.

(** [strings.genSplit] with [sepSave = 0] and a non-empty separator, after
    its [n--]: [n] is the number of cuts still allowed. *)
Fixpoint genSplit (s sep : string) (n : nat) : list string :=
  match n with
  | O => [s]
  | S n' =>
      match Index s sep with
      | None => [s]
      | Some m =>
          slice_to m s :: genSplit (slice_from (m + String.length sep) s) sep n'
      end
  end.

(** [strings.SplitN(s, sep, n)] for [n >= 0] and [strings.Split(s, sep)],
    both for a non-empty separator. *)
Definition SplitN (s sep : string) (n : nat) : list string :=
  match n with
  | O => []
  | S k => genSplit s sep (Nat.min k (String.length s))
  end.

Definition Split (s sep : string) : list string :=
  genSplit s sep (Count s sep).

(** *** [strings.TrimSpace]

    Go removes the leading and trailing code points that have Unicode's
    White_Space property, decoding the string as UTF-8.  [isSpaceEnc r]
    says that the bytes [r] are the encoding of one such code point:
    U+0009..U+000D, U+0020, U+0085, U+00A0, U+1680, U+2000..U+200A,
    U+2028, U+2029, U+202F, U+205F, U+3000. *)
Definition byte (c : ascii) : N := N_of_ascii c.

Definition asciiSpace (c : ascii) : bool :=
  ((0x09 <=? byte c) && (byte c <=? 0x0D)) || (byte c =? 0x20).

Definition isSpaceEnc (r : string) : bool :=
  match r with
  | String c0 EmptyString => asciiSpace c0
  | String c0 (String c1 EmptyString) =>
      (byte c0 =? 0xC2) && ((byte c1 =? 0x85) || (byte c1 =? 0xA0))
  | String c0 (String c1 (String c2 EmptyString)) =>
      ((byte c0 =? 0xE1) && (byte c1 =? 0x9A) && (byte c2 =? 0x80))
      || ((byte c0 =? 0xE2) && (byte c1 =? 0x80)
          && (((0x80 <=? byte c2) && (byte c2 <=? 0x8A))
              || (byte c2 =? 0xA8) || (byte c2 =? 0xA9) || (byte c2 =? 0xAF)))
      || ((byte c0 =? 0xE2) && (byte c1 =? 0x81) && (byte c2 =? 0x9F))
      || ((byte c0 =? 0xE3) && (byte c1 =? 0x80) && (byte c2 =? 0x80))
  | _ => false
  end.

(** Leading white space: a white-space code point is decoded at the start
    of the string exactly when its encoding is a prefix of the string. *)
Fixpoint trimLeftSpace (s : string) : string :=
  match s with
  | EmptyString => EmptyString
  | String c0 s1 =>
      if isSpaceEnc (String c0 EmptyString) then trimLeftSpace s1
      else match s1 with
           | EmptyString => s
           | String c1 s2 =>
               if isSpaceEnc (String c0 (String c1 EmptyString))
               then trimLeftSpace s2
               else match s2 with
                    | EmptyString => s
                    | String c2 s3 =>
                        if isSpaceEnc
                             (String c0 (String c1 (String c2 EmptyString)))
                        then trimLeftSpace s3
                        else s
                    end
           end
  end.

(** Trailing white space: [utf8.DecodeLastRuneInString] finds a white-space
    code point at the end exactly when its encoding is a suffix.  With [r]
    the trimmed tail, [String c r] ends in such an encoding only if it is
    one as a whole. *)
Fixpoint trimRightSpace (s : string) : string :=
  match s with
  | EmptyString => EmptyString
  | String c s' =>
      let r := trimRightSpace s' in
      if isSpaceEnc (String c r) then EmptyString else String c r
  end.

Definition TrimSpace (s : string) : string :=
  trimRightSpace (trimLeftSpace s).

(** *** [strings.Trim(s, cutset)] for a cutset of ASCII bytes

    Every leading and every trailing byte that occurs in [cutset] is
    removed. *)
Fixpoint inCutset (c : ascii) (cutset : string) : bool :=
  match cutset with
  | EmptyString => false
  | String d cutset' => Ascii.eqb c d || inCutset c cutset'
  end.

Fixpoint trimLeftASCII (s cutset : string) : string :=
  match s with
  | EmptyString => EmptyString
  | String c s' => if inCutset c cutset then trimLeftASCII s' cutset else s
  end.

Fixpoint trimRightASCII (s cutset : string) : string :=
  match s with
  | EmptyString => EmptyString
  | String c s' =>
      match trimRightASCII s' cutset with
      | EmptyString => if inCutset c cutset then EmptyString
                       else String c EmptyString
      | r => String c r
      end
  end.

Definition Trim (s cutset : string) : string :=
  trimLeftASCII (trimRightASCII s cutset) cutset.

(** [strings.Contains]. *)
Definition Contains (s substr : string) : bool :=
  match Index s substr with Some _ => true | None => false end.

End GoStrings.

Import GoStrings.

(* ===================================================================== *)
(** ** parseAddress                                                      *)
(* ===================================================================== *)

(** [parseAddress] handles the MAIL FROM and RCPT TO commands.  It returns
    Go's pair of the address and the error. *)
Definition parseAddress (line : string) : string * option error :=
  match SplitN line ":" 2 with
  | [_; rest] =>
      let address := TrimSpace rest in
      (Trim address "<>", None)
  | _ => ("", Some "invalid RCPT TO syntax")
  end.


(* ===================================================================== *)
(** ** The data model                                                    *)
(* ===================================================================== *)

(** The result of a fallible computation that returns no value with its
    error. *)
Inductive result (A : Type) : Type :=
| Ok (a : A)
| Err (e : error).
Arguments Ok {A} a.
Arguments Err {A} e.

Definition is_err {A} (r : result A) : bool :=
  match r with Ok _ => false | Err _ => true end.

(** [MailMessage] represents the parsed mail data. *)
Record MailMessage : Type := mkMailMessage {
  From : string;
  To : string;
  Subject : string;
  PlainText : string;
  HTMLText : string;
}.

Definition set_From (m : MailMessage) (v : string) : MailMessage :=
  mkMailMessage v (To m) (Subject m) (PlainText m) (HTMLText m).
Definition set_To (m : MailMessage) (v : string) : MailMessage :=
  mkMailMessage (From m) v (Subject m) (PlainText m) (HTMLText m).
Definition set_PlainText (m : MailMessage) (v : string) : MailMessage :=
  mkMailMessage (From m) (To m) (Subject m) v (HTMLText m).
Definition set_HTMLText (m : MailMessage) (v : string) : MailMessage :=
  mkMailMessage (From m) (To m) (Subject m) (PlainText m) v.

(** The header mapping is a Go [map[string]string]. *)
Abbreviation Headers := (gmap string string).

(** Go leaves the order in which [range] visits a map unspecified and
    randomises it.  A [RangeOrder] is one choice of that order; it is
    [valid] when it visits every entry of the map exactly once. *)
Definition RangeOrder : Type := Headers -> list (string * string).

Definition valid_order (order : RangeOrder) : Prop :=
  forall m : Headers, order m ≡ₚ map_to_list m.

(** The order in which stdpp lists a map is one valid order; its reverse
    is another one. *)
Definition listed_order : RangeOrder := fun m => map_to_list m.
Definition reversed_order : RangeOrder := fun m => reverse (map_to_list m).

(** *** Package [mime/multipart]

    [multipart.Reader] is a cursor over the parts of a body.  The model of
    a reader is the finite sequence of the results its [NextPart] calls
    will give, each part with the value of its [Content-Type] header and
    with the result of [io.ReadAll] on it. *)
Inductive PartReader : Type :=
| NoMoreParts
    (* NextPart returns an error err with errors.Is(err, io.EOF) *)
| NextPartFails (err : error)
    (* NextPart returns any other error *)
| NextPart (contentType : string) (content : result string)
           (rest : PartReader).

(* ===================================================================== *)
(** ** The mail parser                                                   *)
(* ===================================================================== *)

Definition CRLF : string := String "013" (String "010" EmptyString).

(** The body of the loop of [parseHeadersAndBody] over the lines of the
    header block. *)
Fixpoint parseHeaderLines (lines : list string) (headers : Headers)
  : result Headers :=
  match lines with
  | [] => Ok headers
  | line :: lines' =>
      match Index line ":" with
      | None => Err ("invalid header format: " +:+ line)
      | Some colonIndex =>
          let key := TrimSpace (slice_to colonIndex line) in
          let value := TrimSpace (slice_from (colonIndex + 1) line) in
          parseHeaderLines lines' (<[key := value]> headers)
      end
  end.

(** [parseHeadersAndBody] splits raw mail data into headers and body. *)
Definition parseHeadersAndBody (data : string) : result (Headers * string) :=
  match SplitN data (CRLF +:+ CRLF) 2 with
  | [block; body] =>
      match parseHeaderLines (Split block CRLF) ∅ with
      | Err e => Err e
      | Ok headers => Ok (headers, body)
      end
  | _ => Err "invalid mail format: missing headers or body"
  end.

Section Parser.

(** The functions of Go's library that the parser calls and that are not
    modelled byte by byte: [strings.EqualFold] (Unicode case folding),
    [mime.ParseMediaType], which returns the media type, the parameters
    and the error, and [multipart.NewReader]. *)
Variable EqualFold : string -> string -> bool.
Variable ParseMediaType : string -> string * Headers * option error.
Variable NewReader : string -> string -> PartReader.

(** The closure [getHeader] of [parseMailData], a case-insensitive header
    lookup: the first entry that [range] visits and whose key folds to
    [key] decides. *)
Fixpoint getHeader_range (entries : list (string * string)) (key : string)
  : string :=
  match entries with
  | [] => ""
  | (k, v) :: entries' =>
      if EqualFold k key then v else getHeader_range entries' key
  end.

Definition getHeader (order : RangeOrder) (headers : Headers) (key : string)
  : string :=
  getHeader_range (order headers) key.

(** The loop of [processMultipartMessage]; the message is updated in
    place, so that it is returned next to the error. *)
Fixpoint processParts (r : PartReader) (mailMessage : MailMessage)
  : MailMessage * option error :=
  match r with
  | NoMoreParts => (mailMessage, None)
  | NextPartFails err =>
      (mailMessage, Some ("error reading multipart message: " +:+ err))
  | NextPart partContentType (Err err) _ =>
      (mailMessage, Some ("error reading part: " +:+ err))
  | NextPart partContentType (Ok partData) rest =>
      processParts rest
        (if HasPrefix partContentType "text/plain"
         then set_PlainText mailMessage (TrimSpace partData)
         else if HasPrefix partContentType "text/html"
         then set_HTMLText mailMessage (TrimSpace partData)
         else mailMessage)
  end.

(** [processMultipartMessage] processes a multipart message and populates
    the [MailMessage] fields. *)
Definition processMultipartMessage (body boundary : string)
    (mailMessage : MailMessage) : MailMessage * option error :=
  processParts (NewReader body boundary) mailMessage.

(** [params["boundary"]]: a missing key reads as the empty string. *)
Definition param (params : Headers) (name : string) : string :=
  default "" (params !! name).

(** The last statement of [parseMailData]: multipart messages go to the
    decomposer, any other body is the plain text. *)
Definition fillBody (mediaType : string) (params : Headers) (body : string)
    (mailMessage : MailMessage) : result MailMessage :=
  if HasPrefix mediaType "multipart/" then
    match processMultipartMessage body (param params "boundary")
            mailMessage with
    | (_, Some err) => Err err
    | (m, None) => Ok m
    end
  else Ok (set_PlainText mailMessage body).

(** [parseMailData] parses the raw mail data into a [MailMessage].  Its
    four header lookups range over the map in the orders [order 0] to
    [order 3]. *)
Definition parseMailData (order : nat -> RangeOrder) (data : string)
  : result MailMessage :=
  match parseHeadersAndBody data with
  | Err err => Err err
  | Ok (headers, body) =>
      let from := getHeader (order 0%nat) headers "From" in
      let to := getHeader (order 1%nat) headers "To" in
      let subject := getHeader (order 2%nat) headers "Subject" in
      let contentType := getHeader (order 3%nat) headers "Content-Type" in
      let '(mediaType, params, err) := ParseMediaType contentType in
      match err with
      | Some err' =>
          if negb (String.eqb contentType "")
          then Err ("error parsing Content-Type: " +:+ err')
          else fillBody mediaType params body
                 (mkMailMessage from to subject "" "")
      | None =>
          fillBody mediaType params body (mkMailMessage from to subject "" "")
      end
  end.

End Parser.

(* ===================================================================== *)
(** ** The connection                                                    *)
(* ===================================================================== *)

(** A [net.Conn] with the [bufio.Reader] and the [bufio.Writer] that
    [handleConnection] puts on it.  The writer keeps what it is given until
    [Flush]; its automatic flush of a full buffer is left out, every
    [WriteString] of the server being followed by a [Flush]. *)
Record Conn : Type := mkConn {
  rx : string;                 (* bytes from the client that are not read yet *)
  rerr : error;                (* what a read reports when no line is left:
                                  io.EOF, or the deadline *)
  deadlineErr : option error;  (* the result of SetDeadline *)
  wbuf : string;               (* the writer's buffer *)
  werr : option error;         (* the writer's sticky error *)
  wquota : option nat;         (* how many writes the socket still accepts;
                                  None: all of them *)
  wfail : error;               (* the error of a write the socket refuses *)
  tx : list string;            (* the writes that reached the client *)
  closed : bool;
}.

Definition set_rx (c : Conn) (v : string) : Conn :=
  mkConn v (rerr c) (deadlineErr c) (wbuf c) (werr c) (wquota c) (wfail c)
         (tx c) (closed c).

Definition Close (c : Conn) : Conn :=
  mkConn (rx c) (rerr c) (deadlineErr c) (wbuf c) (werr c) (wquota c)
         (wfail c) (tx c) true.

(** [bufio.Reader.ReadString('\n')]: the line with its delimiter and the
    bytes after it, or [None] when the input ends before a delimiter. *)
Fixpoint ReadString (input : string) : option (string * string) :=
  match input with
  | EmptyString => None
  | String c input' =>
      if Ascii.eqb c "010" then Some (String c EmptyString, input')
      else match ReadString input' with
           | Some (line, rest) => Some (String c line, rest)
           | None => None
           end
  end.

(** [bufio.Writer.WriteString] and [bufio.Writer.Flush]. *)
Definition WriteString (c : Conn) (s : string) : Conn * option error :=
  match werr c with
  | Some e => (c, Some e)
  | None =>
      (mkConn (rx c) (rerr c) (deadlineErr c) (wbuf c +:+ s) None (wquota c)
              (wfail c) (tx c) (closed c), None)
  end.

Definition Flush (c : Conn) : Conn * option error :=
  match werr c with
  | Some e => (c, Some e)
  | None =>
      if String.eqb (wbuf c) "" then (c, None)
      else match wquota c with
           | Some O =>
               (mkConn (rx c) (rerr c) (deadlineErr c) (wbuf c)
                       (Some (wfail c)) (wquota c) (wfail c) (tx c) (closed c),
                Some (wfail c))
           | q =>
               (mkConn (rx c) (rerr c) (deadlineErr c) "" None (pred <$> q)
                       (wfail c) (tx c ++ [wbuf c]) (closed c), None)
           end
  end.

(** [collectMailData] reads the raw mail data from the client until the
    SMTP end marker.  It returns the data and leaves the reader after the
    marker.  Every round reads at least one byte. *)
Fixpoint collectLoop (rounds : nat) (input mailData : string)
  : string * string :=
  match rounds with
  | O => ("", input)
  | S rounds' =>
      match ReadString input with
      | None => ("", "")
      | Some (line, rest) =>
          if String.eqb (TrimSpace line) "." then (TrimSpace mailData, rest)
          else collectLoop rounds' rest (mailData +:+ line)
      end
  end.

Definition collectMailData (input : string) : string * string :=
  collectLoop (String.length input) input "".

(* ===================================================================== *)
(** ** The session                                                       *)
(* ===================================================================== *)

(** What a session does besides replying: the commands it dispatches on,
    as trimmed, and the messages it hands to the callback.  The history is
    kept with the session for the statements below; the server does not
    read it. *)
Inductive Event : Type :=
| EvCommand (line : string)
| EvDispatch (m : MailMessage).

Record Session : Type := mkSession {
  conn : Conn;
  from : string;
  to : string;
  history : list Event;
}.

Definition set_conn (s : Session) (c : Conn) : Session :=
  mkSession c (from s) (to s) (history s).
Definition set_from (s : Session) (v : string) : Session :=
  mkSession (conn s) v (to s) (history s).
Definition set_to (s : Session) (v : string) : Session :=
  mkSession (conn s) (from s) v (history s).
Definition record (s : Session) (e : Event) : Session :=
  mkSession (conn s) (from s) (to s) (history s ++ [e]).

Definition dispatched (h : list Event) : list MailMessage :=
  omap (fun e => match e with EvDispatch m => Some m | _ => None end) h.

(** The cases of the [switch] of [handleConnection], in its order. *)
Inductive Command : Type :=
| EHLO | MAIL_FROM | RCPT_TO | DATA | QUIT | NOOP | DOT | OTHER.

Definition commandKind (line : string) : Command :=
  if HasPrefix line "EHLO" then EHLO
  else if HasPrefix line "MAIL FROM" then MAIL_FROM
  else if HasPrefix line "RCPT TO" then RCPT_TO
  else if HasPrefix line "DATA" then DATA
  else if HasPrefix line "QUIT" then QUIT
  else if HasPrefix line "NOOP" then NOOP
  else if String.eqb line "." then DOT
  else OTHER.

(** One round of the loop either goes on or leaves [handleConnection]
    with its error. *)
Inductive Outcome : Type :=
| Continue (s : Session)
| Return (s : Session) (err : option error).

(** [if _, err = writer.WriteString(msg); err != nil { return ... }] *)
Definition writeOrReturn (s : Session) (msg wrap : string)
    (k : Session -> Outcome) : Outcome :=
  match WriteString (conn s) msg with
  | (c, Some e) => Return (set_conn s c) (Some (wrap +:+ e))
  | (c, None) => k (set_conn s c)
  end.

(** [_, _ = writer.WriteString(msg)] *)
Definition writeIgnore (s : Session) (msg : string) : Session :=
  set_conn s (WriteString (conn s) msg).1.

(** [if err = writer.Flush(); err != nil { return ... }] *)
Definition flushOrReturn (s : Session) (k : Session -> Outcome) : Outcome :=
  match Flush (conn s) with
  | (c, Some e) => Return (set_conn s c) (Some ("error flushing writer: " +:+ e))
  | (c, None) => k (set_conn s c)
  end.

Definition returnNil (s : Session) : Outcome := Return s None.

(** [handleEHLO] handles the EHLO command and sends the list of supported
    extensions; it ignores the errors of the writer. *)
Definition handleEHLO (c : Conn) : Conn :=
  let c := (WriteString c ("250-Hello" +:+ CRLF)).1 in
  let c := foldl (fun c ext => (WriteString c (ext +:+ CRLF)).1) c
                 ["250-SIZE 10240000"] in
  let c := (WriteString c ("250 OK" +:+ CRLF)).1 in
  (Flush c).1.

Section Server.

Variable EqualFold : string -> string -> bool.
Variable ParseMediaType : string -> string * Headers * option error.
Variable NewReader : string -> string -> PartReader.

(** The callback of the server; its result may depend on how many
    messages it was given before. *)
Variable callBackFn : nat -> MailMessage -> option error.

(** The orders of the map traversals: [order n i] is the order of lookup
    [i] of the parse that starts after [n] events. *)
Variable order : nat -> nat -> RangeOrder.

Definition OK : string := "250 OK" +:+ CRLF.

(** The case [DATA] after the reply 354 is flushed. *)
Definition handleData (s : Session) : Outcome :=
  let '(mailData, rest) := collectMailData (rx (conn s)) in
  let s := set_conn s (set_rx (conn s) rest) in
  if String.eqb mailData "" then
    writeOrReturn s ("550 Error reading mail data" +:+ CRLF)
      "error writing error message: "
      (fun s => flushOrReturn s returnNil)
  else
    match parseMailData EqualFold ParseMediaType NewReader
            (order (length (history s))) mailData with
    | Err err =>
        writeOrReturn s ("550 Error processing mail: " +:+ err +:+ CRLF)
          "error writing error message: "
          (fun s => flushOrReturn s returnNil)
    | Ok msg =>
        let msg := if negb (String.eqb (From msg) (from s))
                   then set_From msg (from s) else msg in
        let msg := if negb (String.eqb (To msg) (to s))
                   then set_To msg (to s) else msg in
        (* Invoke the callback function *)
        let err := callBackFn (length (dispatched (history s))) msg in
        let s := record s (EvDispatch msg) in
        match err with
        | Some err =>
            flushOrReturn
              (writeIgnore s ("550 Error processing mail: " +:+ err +:+ CRLF))
              returnNil
        | None => flushOrReturn (writeIgnore s OK) Continue
        end
    end.

(** The body of the loop of [handleConnection]. *)
Definition iteration (s : Session) : Outcome :=
  match ReadString (rx (conn s)) with
  | None =>
      Return (set_conn s (set_rx (conn s) ""))
             (Some ("error reading command: " +:+ rerr (conn s)))
  | Some (line, rest) =>
      let line := TrimSpace line in
      let s := record (set_conn s (set_rx (conn s) rest)) (EvCommand line) in
      match commandKind line with
      | EHLO => Continue (set_conn s (handleEHLO (conn s)))
      | MAIL_FROM =>
          let '(address, err) := parseAddress line in
          let s := set_from s address in
          match err with
          | Some err =>
              writeOrReturn s ("550 Error: " +:+ err +:+ CRLF)
                "error writing error message: "
                (fun s => flushOrReturn s returnNil)
          | None =>
              writeOrReturn s OK "error writing OK response: "
                (fun s => flushOrReturn s Continue)
          end
      | RCPT_TO =>
          let '(address, err) := parseAddress line in
          let s := set_to s address in
          match err with
          | Some err =>
              writeOrReturn s ("550 Error: " +:+ err +:+ CRLF)
                "error writing error message: "
                (fun s => flushOrReturn s returnNil)
          | None => flushOrReturn (writeIgnore s OK) Continue
          end
      | DATA =>
          writeOrReturn s
            ("354 Start mail input; end with <CRLF>.<CRLF>" +:+ CRLF)
            "error flushing writer: "
            (fun s => flushOrReturn s handleData)
      | QUIT =>
          writeOrReturn s ("221 Bye" +:+ CRLF) "error writing QUIT response: "
            (fun s => flushOrReturn s returnNil)
      | NOOP => flushOrReturn (writeIgnore s OK) Continue
      | DOT => Continue s  (* End of data: [break] leaves the switch *)
      | OTHER => flushOrReturn (writeIgnore s OK) Continue
      end
  end.

(** The loop of [handleConnection].  A round that goes on has read at
    least one byte, so the loop ends within [rounds] rounds when [rounds]
    exceeds the length of the input (lemma [commandLoop_returns]). *)
Fixpoint commandLoop (rounds : nat) (s : Session)
  : option (Session * option error) :=
  match rounds with
  | O => None
  | S rounds' =>
      match iteration s with
      | Return s' err => Some (s', err)
      | Continue s' => commandLoop rounds' s'
      end
  end.

(** [handleConnection] processes an SMTP client connection. *)
Definition handleConnection (c : Conn) : Session * option error :=
  let s := mkSession c "" "" [] in
  let '(s', err) :=
    match deadlineErr c with
    | Some e => (s, Some ("error setting connection deadline: " +:+ e))
    | None =>
        match WriteString c ("220 Welcome to the SMTP server" +:+ CRLF) with
        | (c, Some e) =>
            (set_conn s c, Some ("error writing welcome message: " +:+ e))
        | (c, None) =>
            match Flush c with
            | (c, Some e) =>
                (set_conn s c, Some ("error flushing writer: " +:+ e))
            | (c, None) =>
                default (set_conn s c, None)
                  (commandLoop (S (String.length (rx c))) (set_conn s c))
            end
        end
    end in
  (* the deferred conn.Close() *)
  (set_conn s' (Close (conn s')), err).

End Server.

(* ===================================================================== *)
(** ** Reference instances of the library functions                      *)
(* ===================================================================== *)

(** The statements below hold for every behaviour of [EqualFold],
    [ParseMediaType] and [NewReader].  To run the server on concrete
    sessions, this module gives instances that agree with Go's library on
    the inputs they are run on: the ASCII part of case folding, media
    types without parameters or with one quoted or unquoted [boundary]
    parameter, and multipart bodies with CRLF line ends, one header per
    part and no transfer encoding. *)
Module Ref.

Definition lower (c : ascii) : ascii :=
  if (0x41 <=? byte c) && (byte c <=? 0x5A)
  then ascii_of_N (byte c + 0x20) else c.

Fixpoint ToLower (s : string) : string :=
  match s with
  | EmptyString => EmptyString
  | String c s' => String (lower c) (ToLower s')
  end.

Definition EqualFold (s t : string) : bool :=
  String.eqb (ToLower s) (ToLower t).

(** [mime.ParseMediaType], without the continuations of RFC 2231. *)
Definition isTSpecial (c : ascii) : bool :=
  inCutset c "()<>@,;:\/[]?=" || (byte c =? 0x22).

Definition isTokenChar (c : ascii) : bool :=
  (0x20 <? byte c) && (byte c <? 0x7F) && negb (isTSpecial c).

Fixpoint consumeToken (v : string) : string * string :=
  match v with
  | EmptyString => ("", "")
  | String c v' =>
      if isTokenChar c
      then let '(token, rest) := consumeToken v' in (String c token, rest)
      else ("", v)
  end.

(** The inside of a quoted string, after its opening quote: the value and
    the rest after the closing quote, or [None] without a closing quote. *)
Fixpoint consumeQuoted (v : string) : option (string * string) :=
  match v with
  | EmptyString => None
  | String c v' =>
      if byte c =? 0x22 then Some ("", v')
      else if (byte c =? 0x0D) || (byte c =? 0x0A) then None
      else if byte c =? 0x5C then
        match v' with
        | EmptyString => None
        | String d v'' =>
            match consumeQuoted v'' with
            | Some (value, rest) => Some (String d value, rest)
            | None => None
            end
        end
      else match consumeQuoted v' with
           | Some (value, rest) => Some (String c value, rest)
           | None => None
           end
  end.

Definition consumeValue (v : string) : string * string :=
  match v with
  | EmptyString => ("", "")
  | String c v' =>
      if byte c =? 0x22
      then match consumeQuoted v' with
           | Some r => r
           | None => ("", v)
           end
      else consumeToken v
  end.

Definition consumeMediaParam (v : string) : string * string * string :=
  let rest := trimLeftSpace v in
  match rest with
  | String ";" rest =>
      let rest := trimLeftSpace rest in
      let '(name, rest) := consumeToken rest in
      let name := ToLower name in
      if String.eqb name "" then ("", "", v)
      else
        let rest := trimLeftSpace rest in
        match rest with
        | String "=" rest =>
            let rest := trimLeftSpace rest in
            let '(value, rest2) := consumeValue rest in
            if String.eqb value "" && String.eqb rest2 rest then ("", "", v)
            else (name, value, rest2)
        | _ => ("", "", v)
        end
  | _ => ("", "", v)
  end.

Definition checkMediaTypeDisposition (s : string) : option error :=
  let '(typ, rest) := consumeToken s in
  if String.eqb typ "" then Some "mime: no media type"
  else match rest with
       | EmptyString => None
       | String "/" rest =>
           let '(subtype, rest) := consumeToken rest in
           if String.eqb subtype ""
           then Some "mime: expected token after slash"
           else if String.eqb rest "" then None
           else Some "mime: unexpected content after media subtype"
       | _ => Some "mime: expected slash after first token"
       end.

Fixpoint mediaParams (rounds : nat) (v : string) (params : Headers)
  : result Headers :=
  match rounds with
  | O => Ok params
  | S rounds' =>
      let v := trimLeftSpace v in
      if String.eqb v "" then Ok params
      else
        let '(key, value, rest) := consumeMediaParam v in
        if String.eqb key "" then
          if String.eqb (TrimSpace rest) ";" then Ok params
          else Err "mime: invalid media parameter"
        else
          match params !! key with
          | Some old =>
              if String.eqb old value
              then mediaParams rounds' rest (<[key := value]> params)
              else Err "mime: duplicate parameter name"
          | None => mediaParams rounds' rest (<[key := value]> params)
          end
  end.

Definition ParseMediaType (v : string) : string * Headers * option error :=
  let base := match Index v ";" with
              | Some i => slice_to i v
              | None => v
              end in
  let mediatype := TrimSpace (ToLower base) in
  match checkMediaTypeDisposition mediatype with
  | Some err => ("", ∅, Some err)
  | None =>
      let v := slice_from (String.length base) v in
      match mediaParams (String.length v) v ∅ with
      | Ok params => (mediatype, params, None)
      | Err "mime: duplicate parameter name" =>
          ("", ∅, Some "mime: duplicate parameter name")
      | Err err => (mediatype, ∅, Some err)
      end
  end.

(** [multipart.NewReader] for a body with CRLF line ends whose parts carry
    no transfer encoding.  The body is cut at the delimiter lines; the
    piece before the first one is the preamble; a piece that starts with
    two dashes follows the closing delimiter. *)
Definition partContentType (block : string) : string :=
  match parseHeaderLines (Split block CRLF) ∅ with
  | Ok headers =>
      getHeader_range EqualFold (map_to_list headers) "Content-Type"
  | Err _ => ""
  end.

Fixpoint partsOf (pieces : list string) : PartReader :=
  match pieces with
  | [] => NoMoreParts
  | piece :: pieces' =>
      if HasPrefix piece "--" then NoMoreParts
      else if HasPrefix piece (CRLF +:+ CRLF)
      then NextPart "" (Ok (slice_from 4 piece)) (partsOf pieces')
      else if HasPrefix piece CRLF
      then match SplitN (slice_from 2 piece) (CRLF +:+ CRLF) 2 with
           | [block; content] =>
               NextPart (partContentType block) (Ok content) (partsOf pieces')
           | _ => NextPartFails "multipart: NextPart: malformed MIME header"
           end
      else NextPartFails "multipart: expecting a new Part"
  end.

Definition NewReader (body boundary : string) : PartReader :=
  if String.eqb boundary "" then NextPartFails "multipart: boundary is empty"
  else partsOf (tail (Split (CRLF +:+ body) (CRLF +:+ "--" +:+ boundary))).

Definition callBackFn (n : nat) (m : MailMessage) : option error := None.

Definition order (n i : nat) : RangeOrder := listed_order.

Definition client (input : string) : Conn :=
  mkConn input "EOF" None "" None None "broken pipe" [] false.

Definition serve (input : string) : Session * option error :=
  handleConnection EqualFold ParseMediaType NewReader callBackFn order
    (client input).

End Ref.

(* ===================================================================== *)
(** ** Shutdown                                                          *)
(* ===================================================================== *)

Module Lifecycle.

(** The fields of [Server] that [Shutdown] and [Close] work on. *)
Record Server : Type := mkServer {
  done : bool;            (* the channel [done] is closed *)
  wg : nat;               (* the counter of the wait group: sessions in flight *)
  listener : option nat;  (* nil, or the listener with the number of times
                             it was closed *)
}.

(** [Close] shuts down the listener; closing a closed listener is an
    error of the network library. *)
Definition Close (s : Server) : Server * option error :=
  match listener s with
  | None => (s, None)
  | Some n =>
      (mkServer (done s) (wg s) (Some (S n)),
       match n with
       | O => None
       | S _ => Some "use of closed network connection"
       end)
  end.

(** The points of control of one call of [Shutdown]: before the [select],
    in [s.wg.Wait()], before [s.Close()], and returned. *)
Inductive Pc : Type :=
| AtSelect
| AtWait
| AtClose
| Returned (err : option error).

(** One step of a call of [Shutdown]; [None] when the call is blocked in
    [Wait], or has returned. *)
Definition shutdownStep (pc : Pc) (s : Server) : option (Pc * Server) :=
  match pc with
  | AtSelect =>
      if done s then Some (Returned (Some "server already closed"), s)
      else Some (AtWait, mkServer true (wg s) (listener s))
  | AtWait =>
      match wg s with
      | O => Some (AtClose, s)
      | S _ => None
      end
  | AtClose => let '(s', err) := Close s in Some (Returned err, s')
  | Returned _ => None
  end.

(** The steps of a server in which one call of [Shutdown] runs next to the
    goroutines of [Start]: a session ends ([wg.Done]), or the acceptor
    takes a connection from the open listener ([wg.Add(1)]). *)
Inductive step : Pc * Server -> Pc * Server -> Prop :=
| step_shutdown pc s pc' s' :
    shutdownStep pc s = Some (pc', s') -> step (pc, s) (pc', s')
| step_session_done pc s n :
    wg s = S n -> step (pc, s) (pc, mkServer (done s) n (listener s))
| step_accept pc s :
    listener s = Some O ->
    step (pc, s) (pc, mkServer (done s) (S (wg s)) (listener s)).

(** [Shutdown] run to its end by itself: [None] when it stays blocked in
    [Wait], sessions being in flight that nothing ends. *)
Definition Shutdown (s : Server) : option (Server * option error) :=
  if done s then Some (s, Some "server already closed")
  else match wg s with
       | O => Some (Close (mkServer true O (listener s)))
       | S _ => None
       end.

End Lifecycle.

(* ===================================================================== *)
(** ** Facts about the string functions                                  *)
(* ===================================================================== *)

Section StringFacts.

Lemma app_empty_r (s : string) : s +:+ "" = s.
Proof. induction s as [|c s IH]; simpl; [done | by rewrite IH]. Qed.

Lemma app_assoc' (a b c : string) : (a +:+ b) +:+ c = a +:+ b +:+ c.
Proof. induction a as [|x a IH]; simpl; [done | by rewrite IH]. Qed.

Lemma length_app' (a b : string) :
  String.length (a +:+ b) = (String.length a + String.length b)%nat.
Proof. induction a as [|x a IH]; simpl; [done | by rewrite IH]. Qed.

Lemma slice_to_app (a b : string) : slice_to (String.length a) (a +:+ b) = a.
Proof. induction a as [|x a IH]; simpl; [by destruct b | by rewrite IH]. Qed.

Lemma slice_from_app (a b : string) :
  slice_from (String.length a) (a +:+ b) = b.
Proof. induction a as [|x a IH]; simpl; [by destruct b | done]. Qed.

Lemma slice_from_add (i j : nat) (s : string) :
  slice_from (i + j) s = slice_from j (slice_from i s).
Proof.
  revert s. induction i as [|i IH]; intros s; simpl; [done|].
  destruct s as [|c s]; simpl; [by destruct j | apply IH].
Qed.

Lemma slice_join (i : nat) (s : string) : slice_to i s +:+ slice_from i s = s.
Proof.
  revert s. induction i as [|i IH]; intros [|c s]; simpl; try done.
  by rewrite IH.
Qed.

Lemma HasPrefix_app (p s : string) : HasPrefix (p +:+ s) p = true.
Proof.
  induction p as [|c p IH]; simpl; [by destruct s|].
  by rewrite Ascii.eqb_refl.
Qed.

Lemma HasPrefix_split (s p : string) :
  HasPrefix s p = true -> s = p +:+ slice_from (String.length p) s.
Proof.
  revert s. induction p as [|c p IH]; intros s H; simpl in *; [done|].
  destruct s as [|d s]; [done|]. simpl in H.
  destruct (Ascii.eqb d c) eqn:E; [|done].
  apply Ascii.eqb_eq in E as ->. by rewrite <- IH.
Qed.

(** [Index] finds the first occurrence: the string splits there, and no
    occurrence starts before. *)
Lemma Index_Some (s sub : string) (i : nat) :
  Index s sub = Some i ->
  s = slice_to i s +:+ sub +:+ slice_from (i + String.length sub) s.
Proof.
  revert i. induction s as [|c s IH]; intros i.
  - destruct sub as [|d sub]; simpl; [|done]. by intros [= <-].
  - cbn [Index]. destruct (HasPrefix (String c s) sub) eqn:E.
    + intros [= <-]. cbn [slice_to Nat.add]. simpl String.append. by apply HasPrefix_split.
    + destruct (Index s sub) as [j|] eqn:Ej; [|done].
      intros [= <-]. cbn [slice_to slice_from Nat.add]. simpl String.append. f_equal. by apply IH.
Qed.

Lemma Index_None_prefix (s sub : string) :
  Index s sub = None -> HasPrefix s sub = false.
Proof. destruct s; cbn [Index]; by destruct (HasPrefix _ sub). Qed.

Lemma Index_None_app (a b sub : string) :
  Index (a +:+ sub +:+ b) sub <> None.
Proof.
  induction a as [|c a IH].
  - intros H%Index_None_prefix. simpl in H. by rewrite HasPrefix_app in H.
  - simpl String.append. cbn [Index]. destruct (HasPrefix _ sub); [done|].
    destruct (Index (a +:+ sub +:+ b) sub); [done|]. by destruct IH.
Qed.

(** A string contains [sub] exactly when [Index] finds it. *)
Lemma Index_is_Some (s sub : string) :
  is_Some (Index s sub) <-> exists a b, s = a +:+ sub +:+ b.
Proof.
  split.
  - intros [i Hi]. eauto using Index_Some.
  - intros (a & b & ->).
    destruct (Index _ sub) eqn:E; [done|]. by apply Index_None_app in E.
Qed.

Lemma HasPrefix_byte (x c : ascii) (s : string) :
  HasPrefix (String x s) (String c "") = Ascii.eqb x c.
Proof. simpl. destruct (Ascii.eqb x c); [by destruct s | done]. Qed.

(** The index of a byte that the prefix before it does not contain. *)
Lemma Index_byte_first (a b : string) (c : ascii) :
  Index a (String c "") = None ->
  Index (a +:+ String c b) (String c "") = Some (String.length a).
Proof.
  induction a as [|x a IH].
  - intros _. simpl String.append. cbn [Index]. by rewrite HasPrefix_byte, Ascii.eqb_refl.
  - simpl String.append. cbn [Index String.length]. rewrite !HasPrefix_byte.
    destruct (Ascii.eqb x c); [done|].
    destruct (Index a (String c "")) eqn:E; [done|].
    intros _. by rewrite IH.
Qed.

(** [SplitN(s, sep, 2)] cuts at the first occurrence of the separator. *)
Lemma SplitN_2 (s sep : string) :
  sep <> "" ->
  SplitN s sep 2 =
    match Index s sep with
    | Some m => [slice_to m s; slice_from (m + String.length sep) s]
    | None => [s]
    end.
Proof.
  intros Hsep. unfold SplitN. destruct s as [|c s].
  - destruct sep; done. 
  - replace (Nat.min 1 (String.length (String c s))) with 1%nat by (simpl; lia).
    cbn [genSplit]. by destruct (Index (String c s) sep).
Qed.

End StringFacts.

(** *** What [Trim] removes *)

(** All bytes of [s] occur in [cutset]. *)
Fixpoint allIn (s cutset : string) : bool :=
  match s with
  | EmptyString => true
  | String c s' => inCutset c cutset && allIn s' cutset
  end.

Definition firstIn (s cutset : string) : bool :=
  match s with
  | EmptyString => false
  | String c _ => inCutset c cutset
  end.

Fixpoint lastIn (s cutset : string) : bool :=
  match s with
  | EmptyString => false
  | String c EmptyString => inCutset c cutset
  | String _ s' => lastIn s' cutset
  end.

Lemma trimLeftASCII_spec (s cutset : string) :
  exists l, s = l +:+ trimLeftASCII s cutset /\ allIn l cutset = true
            /\ firstIn (trimLeftASCII s cutset) cutset = false.
Proof.
  induction s as [|c s (l & Hs & Hl & Hf)]; simpl.
  - by exists "".
  - destruct (inCutset c cutset) eqn:E.
    + exists (String c l). simpl. rewrite E, Hl. by rewrite <- Hs.
    + exists "". simpl. by rewrite E.
Qed.

Lemma trimRightASCII_spec (s cutset : string) :
  exists r, s = trimRightASCII s cutset +:+ r /\ allIn r cutset = true
            /\ lastIn (trimRightASCII s cutset) cutset = false.
Proof.
  induction s as [|c s (r & Hs & Hr & Hf)]; simpl.
  - by exists "".
  - destruct (trimRightASCII s cutset) as [|d t] eqn:Et.
    + simpl in Hs. subst r. destruct (inCutset c cutset) eqn:E.
      * exists (String c s). simpl. by rewrite E, Hr.
      * exists s. simpl. by rewrite E.
    + exists r. split; [|split]; [simpl; by rewrite Hs | done | done].
Qed.

Lemma lastIn_suffix (l t cutset : string) :
  t <> "" -> lastIn (l +:+ t) cutset = lastIn t cutset.
Proof.
  intros Ht. induction l as [|c l IH]; simpl; [done|].
  rewrite IH. by destruct l, t.
Qed.

(** [Trim] removes bytes of the cutset only, and all of them at both
    ends. *)
Lemma Trim_spec (s cutset : string) :
  exists l r, s = l +:+ Trim s cutset +:+ r
    /\ allIn l cutset = true /\ allIn r cutset = true
    /\ firstIn (Trim s cutset) cutset = false
    /\ lastIn (Trim s cutset) cutset = false.
Proof.
  unfold Trim.
  destruct (trimRightASCII_spec s cutset) as (r & Hs & Hr & Hlast).
  destruct (trimLeftASCII_spec (trimRightASCII s cutset) cutset)
    as (l & Ht & Hl & Hfirst).
  exists l, r. repeat split; try done.
  - rewrite <- app_assoc', <- Ht. done.
  - destruct (trimLeftASCII _ cutset) as [|c t] eqn:E; [done|].
    rewrite Ht in Hlast. by rewrite lastIn_suffix in Hlast.
Qed.

(* ===================================================================== *)
(** ** Address parsing                                                   *)
(* ===================================================================== *)

(** [parseAddress] in terms of the first colon of the line. *)
Lemma parseAddress_eq (line : string) :
  parseAddress line =
    match Index line ":" with
    | Some i => (Trim (TrimSpace (slice_from (i + 1) line)) "<>", None)
    | None => ("", Some "invalid RCPT TO syntax")
    end.
Proof.
  unfold parseAddress. rewrite SplitN_2 by done.
  by destruct (Index line ":").
Qed.

(** The reading of the specification: one leading ["<"] and one trailing
    [">"] are removed, if present. *)
Fixpoint stripLastGt (s : string) : string :=
  match s with
  | EmptyString => EmptyString
  | String c EmptyString => if Ascii.eqb c ">" then EmptyString else s
  | String c s' => String c (stripLastGt s')
  end.

Definition stripOnePair (s : string) : string :=
  stripLastGt (match s with
               | String c s' => if Ascii.eqb c "<" then s' else s
               | EmptyString => s
               end).

Definition parseAddress_oneBracket (line : string) : string * option error :=
  match Index line ":" with
  | Some i => (stripOnePair (TrimSpace (slice_from (i + 1) line)), None)
  | None => ("", Some "invalid RCPT TO syntax")
  end.

(** C5, as stated, fails: of nested angle brackets nothing is kept. *)
Lemma parseAddress_nested_brackets :
  parseAddress "MAIL FROM:<<a@b.c>>" = ("a@b.c", None)
  /\ parseAddress_oneBracket "MAIL FROM:<<a@b.c>>" = ("<a@b.c>", None)
  /\ parseAddress "MAIL FROM:<<a@b.c>>"
     <> parseAddress_oneBracket "MAIL FROM:<<a@b.c>>".
Proof. by vm_compute. Qed.

(** C5, amended: the address of a MAIL FROM or RCPT TO line is obtained by
    cutting the line at its first colon, failing when it has none, trimming
    the white space around the remainder, and then removing every leading
    and every trailing byte that is ["<"] or [">"]: what is removed
    consists of these two bytes only, and the address neither starts nor
    ends with one of them. *)
Theorem parseAddress_strips_all_brackets (line : string) :
  (Index line ":" = None ->
   parseAddress line = ("", Some "invalid RCPT TO syntax"))
  /\ (forall a b : string,
        line = a +:+ ":" +:+ b -> Index a ":" = None ->
        exists l r address : string,
          parseAddress line = (address, None)
          /\ TrimSpace b = l +:+ address +:+ r
          /\ allIn l "<>" = true /\ allIn r "<>" = true
          /\ firstIn address "<>" = false /\ lastIn address "<>" = false).
Proof.
  rewrite parseAddress_eq. split.
  - by intros ->.
  - intros a b -> Ha. change (":" +:+ b) with (String ":" b).
    rewrite (Index_byte_first a b ":" Ha).
    replace (String.length a + 1)%nat with (String.length (a +:+ ":"))
      by (rewrite length_app'; done).
    change (String ":" b) with (":" +:+ b).
    rewrite <- (app_assoc' a ":" b), slice_from_app.
    destruct (Trim_spec (TrimSpace b) "<>") as (l & r & H).
    exists l, r, (Trim (TrimSpace b) "<>"). by split.
Qed.

Lemma parseAddress_strips_all_brackets_witness :
  exists l r address : string,
    parseAddress "RCPT TO: <<x@y.z>> " = (address, None)
    /\ TrimSpace " <<x@y.z>> " = l +:+ address +:+ r
    /\ allIn l "<>" = true /\ allIn r "<>" = true
    /\ firstIn address "<>" = false /\ lastIn address "<>" = false.
Proof.
  apply (proj2 (parseAddress_strips_all_brackets "RCPT TO: <<x@y.z>> ")
           "RCPT TO" " <<x@y.z>> "); reflexivity.
Defined.

(* ===================================================================== *)
(** ** Replies on a healthy connection                                   *)
(* ===================================================================== *)

(** A connection is healthy when its writer has no error and nothing
    buffered, and its socket accepts every write. *)
Definition healthy (c : Conn) : Prop :=
  werr c = None /\ wbuf c = "" /\ wquota c = None.

(** The connection after the reply [msg] reached the client. *)
Definition sent (c : Conn) (msg : string) : Conn :=
  mkConn (rx c) (rerr c) (deadlineErr c) "" None None (wfail c)
         (tx c ++ [msg]) (closed c).

Lemma healthy_sent (c : Conn) (msg : string) : healthy (sent c msg).
Proof. done. Qed.

Lemma healthy_set_rx (c : Conn) (input : string) :
  healthy c -> healthy (set_rx c input).
Proof. done. Qed.

Lemma WriteString_healthy (c : Conn) (msg : string) :
  healthy c ->
  WriteString c msg =
    (mkConn (rx c) (rerr c) (deadlineErr c) msg None None (wfail c) (tx c)
            (closed c), None).
Proof.
  intros (Hw & Hb & Hq). unfold WriteString. by rewrite Hw, Hb, Hq.
Qed.

Lemma Flush_written (c : Conn) (msg : string) :
  msg <> "" ->
  Flush (mkConn (rx c) (rerr c) (deadlineErr c) msg None None (wfail c)
                (tx c) (closed c)) = (sent c msg, None).
Proof.
  intros Hm. unfold Flush. simpl.
  destruct (String.eqb_spec msg ""); done.
Qed.

Lemma writeOrReturn_flush_healthy (s : Session) (msg wrap : string)
    (k : Session -> Outcome) :
  healthy (conn s) -> msg <> "" ->
  writeOrReturn s msg wrap (fun s => flushOrReturn s k)
  = k (set_conn s (sent (conn s) msg)).
Proof.
  intros Hh Hm. unfold writeOrReturn, flushOrReturn.
  rewrite (WriteString_healthy _ _ Hh). simpl.
  by rewrite (Flush_written (conn s) msg Hm).
Qed.

Lemma writeIgnore_flush_healthy (s : Session) (msg : string)
    (k : Session -> Outcome) :
  healthy (conn s) -> msg <> "" ->
  flushOrReturn (writeIgnore s msg) k = k (set_conn s (sent (conn s) msg)).
Proof.
  intros Hh Hm. unfold writeIgnore, flushOrReturn.
  rewrite (WriteString_healthy _ _ Hh). simpl.
  by rewrite (Flush_written (conn s) msg Hm).
Qed.

(* ===================================================================== *)
(** ** The command loop, one round at a time                             *)
(* ===================================================================== *)

(** The keywords of the [switch], in its order. *)
Definition keywords : list string :=
  ["EHLO"; "MAIL FROM"; "RCPT TO"; "DATA"; "QUIT"; "NOOP"].

Definition matchesNoKeyword (line : string) : Prop :=
  Forall (fun kw => HasPrefix line kw = false) keywords.

Lemma commandKind_no_keyword (line : string) :
  matchesNoKeyword line ->
  commandKind line = if String.eqb line "." then DOT else OTHER.
Proof.
  unfold matchesNoKeyword, keywords. rewrite !Forall_cons.
  intros (H1 & H2 & H3 & H4 & H5 & H6 & _). unfold commandKind.
  by rewrite H1, H2, H3, H4, H5, H6.
Qed.

(** The session after it read the command [raw], and after a reply. *)
Definition commanded (s : Session) (raw rest : string) : Session :=
  record (set_conn s (set_rx (conn s) rest)) (EvCommand (TrimSpace raw)).

Definition replied (s : Session) (msg : string) : Session :=
  set_conn s (sent (conn s) msg).

Lemma OK_nonempty : OK <> "".
Proof. done. Qed.

Section Rounds.

Variable EqualFold : string -> string -> bool.
Variable ParseMediaType : string -> string * Headers * option error.
Variable NewReader : string -> string -> PartReader.
Variable callBackFn : nat -> MailMessage -> option error.
Variable order : nat -> nat -> RangeOrder.

Local Abbreviation iteration :=
  (iteration EqualFold ParseMediaType NewReader callBackFn order).
Local Abbreviation handleData :=
  (handleData EqualFold ParseMediaType NewReader callBackFn order).
Local Abbreviation commandLoop :=
  (commandLoop EqualFold ParseMediaType NewReader callBackFn order).
Local Abbreviation handleConnection :=
  (handleConnection EqualFold ParseMediaType NewReader callBackFn order).

Variable s : Session.
Variables raw rest : string.
Hypothesis Hhealthy : healthy (conn s).
Hypothesis Hread : ReadString (rx (conn s)) = Some (raw, rest).

Lemma round_other :
  commandKind (TrimSpace raw) = OTHER ->
  iteration s = Continue (replied (commanded s raw rest) OK).
Proof using Hhealthy Hread.
  intros Hk. unfold iteration. rewrite Hread, Hk.
  by rewrite writeIgnore_flush_healthy.
Qed.

Lemma round_noop :
  commandKind (TrimSpace raw) = NOOP ->
  iteration s = Continue (replied (commanded s raw rest) OK).
Proof using Hhealthy Hread.
  intros Hk. unfold iteration. rewrite Hread, Hk.
  by rewrite writeIgnore_flush_healthy.
Qed.

Lemma round_dot :
  commandKind (TrimSpace raw) = DOT ->
  iteration s = Continue (commanded s raw rest).
Proof using Hread. intros Hk. unfold iteration. by rewrite Hread, Hk. Qed.

Lemma round_mail_from (address : string) :
  commandKind (TrimSpace raw) = MAIL_FROM ->
  parseAddress (TrimSpace raw) = (address, None) ->
  iteration s
  = Continue (replied (set_from (commanded s raw rest) address) OK).
Proof using Hhealthy Hread.
  intros Hk Ha. unfold iteration. rewrite Hread, Hk, Ha.
  by rewrite writeOrReturn_flush_healthy.
Qed.

Lemma round_rcpt_to (address : string) :
  commandKind (TrimSpace raw) = RCPT_TO ->
  parseAddress (TrimSpace raw) = (address, None) ->
  iteration s
  = Continue (replied (set_to (commanded s raw rest) address) OK).
Proof using Hhealthy Hread.
  intros Hk Ha. unfold iteration. rewrite Hread, Hk, Ha.
  by rewrite writeIgnore_flush_healthy.
Qed.

Lemma round_address_error (err : error) (a : string) :
  commandKind (TrimSpace raw) = MAIL_FROM
  \/ commandKind (TrimSpace raw) = RCPT_TO ->
  parseAddress (TrimSpace raw) = (a, Some err) ->
  exists s', iteration s = Return s' None
    /\ tx (conn s') = tx (conn s) ++ ["550 Error: " +:+ err +:+ CRLF].
Proof using Hhealthy Hread.
  intros [Hk|Hk] Ha; unfold iteration; rewrite Hread, Hk, Ha;
    (rewrite writeOrReturn_flush_healthy; [|done|by destruct err]);
    by eexists.
Qed.

Lemma round_data :
  commandKind (TrimSpace raw) = DATA ->
  iteration s
  = handleData
      (replied (commanded s raw rest)
         ("354 Start mail input; end with <CRLF>.<CRLF>" +:+ CRLF)).
Proof using Hhealthy Hread.
  intros Hk. unfold iteration. rewrite Hread, Hk.
  by rewrite writeOrReturn_flush_healthy.
Qed.

End Rounds.

(* ===================================================================== *)
(** ** The catch-all case and the address commands                       *)
(* ===================================================================== *)

(** A session at the head of the command loop whose client sent [input]. *)
Definition sessionAt (input from to : string) : Session :=
  mkSession (Ref.client input) from to [].

(** C4, as stated, fails for the line ["."]: it matches no keyword, the
    round goes on, and nothing is sent to the client. *)
Lemma lone_dot_gets_no_reply :
  matchesNoKeyword (TrimSpace ("." +:+ CRLF))
  /\ healthy (conn (sessionAt ("." +:+ CRLF) "" ""))
  /\ exists s',
       iteration Ref.EqualFold Ref.ParseMediaType Ref.NewReader
         Ref.callBackFn Ref.order (sessionAt ("." +:+ CRLF) "" "")
       = Continue s'
       /\ tx (conn s') = []
       /\ tx (conn s') <> tx (conn (sessionAt ("." +:+ CRLF) "" "")) ++ [OK].
Proof.
  split; [by repeat constructor|]. split; [done|].
  eexists. split; [by vm_compute|]. by split.
Qed.

Section CatchAll.

Variable EqualFold : string -> string -> bool.
Variable ParseMediaType : string -> string * Headers * option error.
Variable NewReader : string -> string -> PartReader.
Variable callBackFn : nat -> MailMessage -> option error.
Variable order : nat -> nat -> RangeOrder.

Local Abbreviation iteration :=
  (iteration EqualFold ParseMediaType NewReader callBackFn order).

(** C4, amended: in the command loop, on a healthy connection, a line that
    matches none of the command keywords and is not a lone ["."] is
    answered with ["250 OK"], and the session stays in the loop with its
    envelope unchanged; a lone ["."] also keeps the session in the loop,
    but no reply is written for it. *)
Theorem catch_all_replies_ok (s : Session) (raw rest : string) :
  healthy (conn s) ->
  ReadString (rx (conn s)) = Some (raw, rest) ->
  matchesNoKeyword (TrimSpace raw) ->
  exists s',
    iteration s = Continue s'
    /\ from s' = from s /\ to s' = to s
    /\ rx (conn s') = rest /\ healthy (conn s')
    /\ tx (conn s')
       = tx (conn s) ++ (if String.eqb (TrimSpace raw) "." then [] else [OK]).
Proof.
  intros Hh Hread Hkw. pose proof (commandKind_no_keyword _ Hkw) as Hk.
  destruct (String.eqb (TrimSpace raw) ".") eqn:Hdot.
  - rewrite (round_dot _ _ _ _ _ s raw rest Hread Hk).
    eexists. split; [done|]. simpl. by rewrite app_nil_r.
  - rewrite (round_other _ _ _ _ _ s raw rest Hh Hread Hk).
    eexists. by split.
Qed.

(** C10: [parseAddress] returns an error exactly for the lines without a
    colon; the text after the colon is not validated, so that
    ["MAIL FROM:"] gives the empty address, and the session answers it with
    ["250 OK"] and goes on with the empty sender. *)
Theorem parseAddress_fails_only_without_colon :
  (forall line : string,
     (parseAddress line).2 = None <-> exists a b, line = a +:+ ":" +:+ b)
  /\ (forall line : string,
        (parseAddress line).2 <> None ->
        parseAddress line = ("", Some "invalid RCPT TO syntax")
        /\ Index line ":" = None)
  /\ parseAddress "MAIL FROM:" = ("", None)
  /\ (forall (s : Session) (rest : string),
        healthy (conn s) ->
        rx (conn s) = "MAIL FROM:" +:+ CRLF +:+ rest ->
        exists s',
          iteration s = Continue s'
          /\ from s' = "" /\ to s' = to s /\ rx (conn s') = rest
          /\ tx (conn s') = tx (conn s) ++ [OK]).
Proof.
  split; [|split; [|split]].
  - intros line. rewrite parseAddress_eq, <- Index_is_Some.
    destruct (Index line ":"); simpl; split; try done.
  - intros line. rewrite parseAddress_eq. by destruct (Index line ":").
  - done.
  - intros s rest Hh Hrx.
    assert (ReadString (rx (conn s)) = Some ("MAIL FROM:" +:+ CRLF, rest))
      as Hread by (by rewrite Hrx).
    rewrite (round_mail_from _ _ _ _ _ s _ rest Hh Hread "");
      [|done|done].
    eexists. by split.
Qed.

End CatchAll.

Lemma catch_all_replies_ok_witness :
  exists s',
    iteration Ref.EqualFold Ref.ParseMediaType Ref.NewReader Ref.callBackFn
      Ref.order (sessionAt ("HELO relay" +:+ CRLF) "a" "b")
    = Continue s'
    /\ from s' = "a" /\ to s' = "b"
    /\ rx (conn s') = "" /\ healthy (conn s')
    /\ tx (conn s') = [] ++ [OK].
Proof.
  apply (catch_all_replies_ok Ref.EqualFold Ref.ParseMediaType Ref.NewReader
           Ref.callBackFn Ref.order (sessionAt ("HELO relay" +:+ CRLF) "a" "b")
           ("HELO relay" +:+ CRLF) "");
    [done | reflexivity | by repeat constructor].
Defined.

Lemma parseAddress_fails_only_without_colon_witness :
  exists s',
    iteration Ref.EqualFold Ref.ParseMediaType Ref.NewReader Ref.callBackFn
      Ref.order
      (sessionAt ("MAIL FROM:" +:+ CRLF +:+ "QUIT" +:+ CRLF) "x" "y")
    = Continue s'
    /\ from s' = "" /\ to s' = "y" /\ rx (conn s') = "QUIT" +:+ CRLF
    /\ tx (conn s') = [] ++ [OK].
Proof.
  apply (proj2 (proj2 (proj2
           (parseAddress_fails_only_without_colon Ref.EqualFold
              Ref.ParseMediaType Ref.NewReader Ref.callBackFn Ref.order)))
           (sessionAt ("MAIL FROM:" +:+ CRLF +:+ "QUIT" +:+ CRLF) "x" "y")
           ("QUIT" +:+ CRLF)); [done | reflexivity].
Defined.

(* ===================================================================== *)
(** ** The multipart decomposer                                          *)
(* ===================================================================== *)

(** A part that was read: its Content-Type and its content. *)
Abbreviation Part := (string * string)%type.

(** The reader that yields the given parts and then the end of the body. *)
Fixpoint readerOf (parts : list Part) : PartReader :=
  match parts with
  | [] => NoMoreParts
  | (contentType, content) :: parts' =>
      NextPart contentType (Ok content) (readerOf parts')
  end.

Definition partsWith (prefix : string) (parts : list Part) : list Part :=
  filter (fun p => HasPrefix p.1 prefix = true) parts.

(** The trimmed content of the last part whose Content-Type has the
    prefix. *)
Definition lastWith (prefix : string) (parts : list Part) : option string :=
  (fun p => TrimSpace p.2) <$> last (partsWith prefix parts).

Lemma lastWith_cons (prefix : string) (p : Part) (parts : list Part) :
  lastWith prefix (p :: parts) =
    match lastWith prefix parts with
    | Some content => Some content
    | None => if HasPrefix p.1 prefix then Some (TrimSpace p.2) else None
    end.
Proof.
  unfold lastWith, partsWith. rewrite filter_cons.
  destruct (decide (HasPrefix p.1 prefix = true)) as [->|Hn].
  - rewrite last_cons. by destruct (last _).
  - apply not_true_is_false in Hn. rewrite Hn. by destruct (last _).
Qed.

Lemma plain_is_not_html (contentType : string) :
  HasPrefix contentType "text/plain" = true ->
  HasPrefix contentType "text/html" = false.
Proof.
  intros Hp. apply HasPrefix_split in Hp.
  destruct (HasPrefix contentType "text/html") eqn:Hh; [|done].
  apply HasPrefix_split in Hh. rewrite Hp in Hh. discriminate Hh.
Qed.

Lemma processParts_readerOf (parts : list Part) (m : MailMessage) :
  exists m',
    processParts (readerOf parts) m = (m', None)
    /\ From m' = From m /\ To m' = To m /\ Subject m' = Subject m
    /\ PlainText m' = default (PlainText m) (lastWith "text/plain" parts)
    /\ HTMLText m' = default (HTMLText m) (lastWith "text/html" parts).
Proof.
  revert m. induction parts as [|[ct content] parts IH]; intros m.
  - by exists m.
  - cbn [readerOf processParts]. rewrite !lastWith_cons. cbn [fst snd].
    destruct (HasPrefix ct "text/plain") eqn:Hp;
      [rewrite (plain_is_not_html ct Hp)
      |destruct (HasPrefix ct "text/html") eqn:Hh];
      (edestruct IH as (m' & -> & ? & ? & ? & Hpl & Hht);
       exists m'; rewrite Hpl, Hht; repeat split; try done;
       by destruct (lastWith "text/plain" parts),
                   (lastWith "text/html" parts)).
Qed.

(** A run of the decomposer without error has read every part. *)
Lemma processParts_success (r : PartReader) (m m' : MailMessage) :
  processParts r m = (m', None) -> exists parts, r = readerOf parts.
Proof.
  revert m. induction r as [| |ct [content|e] r IH]; intros m; cbn.
  - by exists [].
  - done.
  - intros [parts ->]%IH. by exists ((ct, content) :: parts).
  - done.
Qed.

(** C2: when the decomposer succeeds on a body, it has read all the parts
    of the body; [PlainText] is the trimmed content of the last part whose
    Content-Type has the prefix ["text/plain"] and [HTMLText] that of the
    last part with the prefix ["text/html"] (a field without such a part
    keeps its value).  In particular, when exactly one part has each
    prefix, both fields are these parts' trimmed contents, wherever the two
    parts stand. *)
Theorem multipart_last_part_wins
    (NewReader : string -> string -> PartReader)
    (body boundary : string) (m m' : MailMessage) :
  processMultipartMessage NewReader body boundary m = (m', None) ->
  exists parts : list Part,
    NewReader body boundary = readerOf parts
    /\ PlainText m' = default (PlainText m) (lastWith "text/plain" parts)
    /\ HTMLText m' = default (HTMLText m) (lastWith "text/html" parts)
    /\ (forall plain html : Part,
          partsWith "text/plain" parts = [plain] ->
          partsWith "text/html" parts = [html] ->
          PlainText m' = TrimSpace plain.2 /\ HTMLText m' = TrimSpace html.2).
Proof.
  unfold processMultipartMessage. intros Hrun.
  destruct (processParts_success _ _ _ Hrun) as [parts Hparts].
  rewrite Hparts in Hrun.
  destruct (processParts_readerOf parts m) as (m2 & Hm2 & _ & _ & _ & Hp & Hh).
  rewrite Hrun in Hm2. injection Hm2 as <-.
  exists parts. split; [done|]. split; [done|]. split; [done|].
  intros plain html Hplain Hhtml. rewrite Hp, Hh. unfold lastWith.
  by rewrite Hplain, Hhtml.
Qed.

(** The text that a client sends as the given lines. *)
Definition crlfLines (ls : list string) : string :=
  foldr (fun l acc => l +:+ CRLF +:+ acc) "" ls.

Definition quoted (s : string) : string :=
  String "034" s +:+ String "034" "".

(** The multipart body of the test of the server, and the same body with
    its two parts exchanged. *)
Definition plainPart : list string :=
  [ "Content-Type: text/plain; charset=" +:+ quoted "UTF-8"; "";
    "Hi there,"; "This is a plain text version of the email.";
    "Best regards,"; "Your Name"; "" ].

Definition htmlPart : list string :=
  [ "Content-Type: text/html; charset=" +:+ quoted "UTF-8"; "";
    "<html>"; "  <body>"; "    <p>Hi there,<br>";
    "       This is an <b>HTML</b> version of the email.<br>";
    "       Best regards,<br>"; "       Your Name"; "    </p>";
    "  </body>"; "</html>"; "" ].

Definition alternativeBody : string :=
  TrimSpace (crlfLines (["--boundary42"] ++ plainPart ++ ["--boundary42"]
                        ++ htmlPart ++ ["--boundary42--"])).

Definition alternativeBodySwapped : string :=
  TrimSpace (crlfLines (["--boundary42"] ++ htmlPart ++ ["--boundary42"]
                        ++ plainPart ++ ["--boundary42--"])).

Definition expectedPlainText : string :=
  TrimSpace (crlfLines (drop 2 plainPart)).

Definition expectedHTMLText : string :=
  TrimSpace (crlfLines (drop 2 htmlPart)).

Lemma multipart_last_part_wins_witness :
  exists parts : list Part,
    Ref.NewReader alternativeBodySwapped "boundary42" = readerOf parts
    /\ expectedPlainText = default "" (lastWith "text/plain" parts)
    /\ expectedHTMLText = default "" (lastWith "text/html" parts)
    /\ (forall plain html : Part,
          partsWith "text/plain" parts = [plain] ->
          partsWith "text/html" parts = [html] ->
          expectedPlainText = TrimSpace plain.2
          /\ expectedHTMLText = TrimSpace html.2).
Proof.
  apply (multipart_last_part_wins Ref.NewReader alternativeBodySwapped
           "boundary42" (mkMailMessage "f" "t" "s" "" "")
           (mkMailMessage "f" "t" "s" expectedPlainText expectedHTMLText)).
  vm_compute. reflexivity.
Defined.

Example multipart_test_body :
  processMultipartMessage Ref.NewReader alternativeBody "boundary42"
    (mkMailMessage "f" "t" "s" "" "")
  = (mkMailMessage "f" "t" "s" expectedPlainText expectedHTMLText, None).
Proof. by vm_compute. Qed.

(* ===================================================================== *)
(** ** The envelope                                                      *)
(* ===================================================================== *)

Global Instance Command_eq_dec : EqDecision Command.
Proof. solve_decision. Defined.

(** The envelope of a session, read off the commands it received: the
    address of the latest MAIL FROM command, and of the latest RCPT TO
    command; the empty string before the first one. *)
Definition envelopeStep (kind : Command) (acc : string) (e : Event) : string :=
  match e with
  | EvCommand line =>
      if decide (commandKind line = kind) then (parseAddress line).1 else acc
  | EvDispatch _ => acc
  end.

Definition envelopeFrom (h : list Event) : string :=
  foldl (envelopeStep MAIL_FROM) "" h.

Definition envelopeTo (h : list Event) : string :=
  foldl (envelopeStep RCPT_TO) "" h.

(** No command of the history is of the given kind. *)
Definition neverIssued (kind : Command) (h : list Event) : Prop :=
  forall line, EvCommand line ∈ h -> commandKind line <> kind.

(** Every message of the history carries the envelope of its moment. *)
Definition enveloped (h : list Event) : Prop :=
  forall h1 m h2,
    h = h1 ++ EvDispatch m :: h2 ->
    From m = envelopeFrom h1 /\ To m = envelopeTo h1.

Definition consistent (s : Session) : Prop :=
  from s = envelopeFrom (history s)
  /\ to s = envelopeTo (history s)
  /\ enveloped (history s).

Lemma envelope_neverIssued (kind : Command) (h : list Event) :
  neverIssued kind h -> foldl (envelopeStep kind) "" h = "".
Proof.
  induction h as [|e h IH] using rev_ind; [done|].
  intros Hn. rewrite foldl_app. cbn. rewrite IH.
  - destruct e as [line|m]; [|done]. cbn.
    destruct (decide (commandKind line = kind)) as [Hk|]; [|done].
    destruct (Hn line); [|done]. apply elem_of_app. right. by left.
  - intros line Hin. apply Hn, elem_of_app. by left.
Qed.

Lemma snoc_split {A} (h h1 h2 : list A) (x y : A) :
  h ++ [x] = h1 ++ y :: h2 ->
  (h2 = [] /\ h1 = h /\ y = x) \/ (exists h2', h = h1 ++ y :: h2').
Proof.
  destruct h2 as [|z h2 _] using rev_ind.
  - intros [-> ->]%app_inj_tail. by left.
  - rewrite app_comm_cons, app_assoc. intros [-> _]%app_inj_tail.
    right. by eexists.
Qed.

Lemma enveloped_command (h : list Event) (line : string) :
  enveloped h -> enveloped (h ++ [EvCommand line]).
Proof.
  intros He h1 m h2 [(_ & _ & [=])|[h2' ->]]%snoc_split. by eapply He.
Qed.

Lemma enveloped_dispatch (h : list Event) (m : MailMessage) :
  enveloped h -> From m = envelopeFrom h -> To m = envelopeTo h ->
  enveloped (h ++ [EvDispatch m]).
Proof.
  intros He Hf Ht h1 m' h2 [(_ & -> & [= ->])|[h2' ->]]%snoc_split; [done|].
  by eapply He.
Qed.

(** What holds of the session that a round leaves behind. *)
Definition after (P : Session -> Prop) (o : Outcome) : Prop :=
  match o with
  | Continue s => P s
  | Return s _ => P s
  end.

Lemma after_writeOrReturn (P : Session -> Prop) (s : Session)
    (msg wrap : string) (k : Session -> Outcome) :
  (forall c, P (set_conn s c)) ->
  (forall c, after P (k (set_conn s c))) ->
  after P (writeOrReturn s msg wrap k).
Proof.
  intros HP Hk. unfold writeOrReturn.
  destruct (WriteString (conn s) msg) as [c [e|]]; [apply HP | apply Hk].
Qed.

Lemma after_flushOrReturn (P : Session -> Prop) (s : Session)
    (k : Session -> Outcome) :
  (forall c, P (set_conn s c)) ->
  (forall c, after P (k (set_conn s c))) ->
  after P (flushOrReturn s k).
Proof.
  intros HP Hk. unfold flushOrReturn.
  destruct (Flush (conn s)) as [c [e|]]; [apply HP | apply Hk].
Qed.

(** A reply, whatever becomes of it, leaves a property of the envelope and
    of the history as it is. *)
Lemma after_reply (P : Session -> Prop) (s : Session) (msg wrap : string)
    (k : Session -> Outcome) :
  (forall c, P (set_conn s c)) ->
  (k = Continue \/ k = returnNil) ->
  after P (writeOrReturn s msg wrap (fun s => flushOrReturn s k)).
Proof.
  intros HP Hk. apply after_writeOrReturn; [done|].
  intros c. apply after_flushOrReturn; intros c'.
  - apply (HP c').
  - destruct Hk as [-> | ->]; apply (HP c').
Qed.

Lemma after_reply_ignore (P : Session -> Prop) (s : Session) (msg : string)
    (k : Session -> Outcome) :
  (forall c, P (set_conn s c)) ->
  (k = Continue \/ k = returnNil) ->
  after P (flushOrReturn (writeIgnore s msg) k).
Proof.
  intros HP Hk. apply after_flushOrReturn; intros c.
  - apply (HP c).
  - destruct Hk as [-> | ->]; apply (HP c).
Qed.

Lemma envelope_snoc_command (kind : Command) (h : list Event) (line : string) :
  foldl (envelopeStep kind) "" (h ++ [EvCommand line])
  = if decide (commandKind line = kind) then (parseAddress line).1
    else foldl (envelopeStep kind) "" h.
Proof. by rewrite foldl_app. Qed.

Lemma envelope_snoc_dispatch (kind : Command) (h : list Event)
    (m : MailMessage) :
  foldl (envelopeStep kind) "" (h ++ [EvDispatch m])
  = foldl (envelopeStep kind) "" h.
Proof. by rewrite foldl_app. Qed.

Lemma consistent_command (s : Session) (c : Conn) (line : string) :
  consistent s ->
  commandKind line <> MAIL_FROM -> commandKind line <> RCPT_TO ->
  consistent (record (set_conn s c) (EvCommand line)).
Proof.
  intros (Hf & Ht & He) Hm Hr. unfold consistent, envelopeFrom, envelopeTo.
  cbn. rewrite !envelope_snoc_command.
  rewrite !decide_False by done. by auto using enveloped_command.
Qed.

Lemma consistent_mail_from (s : Session) (c : Conn) (line : string) :
  consistent s -> commandKind line = MAIL_FROM ->
  consistent (set_from (record (set_conn s c) (EvCommand line))
                (parseAddress line).1).
Proof.
  intros (Hf & Ht & He) Hk. unfold consistent, envelopeFrom, envelopeTo.
  cbn. rewrite !envelope_snoc_command, Hk. cbn.
  by auto using enveloped_command.
Qed.

Lemma consistent_rcpt_to (s : Session) (c : Conn) (line : string) :
  consistent s -> commandKind line = RCPT_TO ->
  consistent (set_to (record (set_conn s c) (EvCommand line))
                (parseAddress line).1).
Proof.
  intros (Hf & Ht & He) Hk. unfold consistent, envelopeFrom, envelopeTo.
  cbn. rewrite !envelope_snoc_command, Hk. cbn.
  by auto using enveloped_command.
Qed.

Lemma consistent_dispatch (s : Session) (m : MailMessage) :
  consistent s -> From m = from s -> To m = to s ->
  consistent (record s (EvDispatch m)).
Proof.
  intros (Hf & Ht & He) Hmf Hmt. unfold consistent, envelopeFrom, envelopeTo.
  cbn. rewrite !envelope_snoc_dispatch. split; [done|]. split; [done|].
  unfold envelopeFrom, envelopeTo in Hf, Ht.
  apply enveloped_dispatch; [done|..]; unfold envelopeFrom, envelopeTo;
    congruence.
Qed.

(** The two assignments of [handleConnection] before the callback. *)
Definition withEnvelope (s : Session) (msg : MailMessage) : MailMessage :=
  let msg := if negb (String.eqb (From msg) (from s))
             then set_From msg (from s) else msg in
  if negb (String.eqb (To msg) (to s)) then set_To msg (to s) else msg.

Lemma withEnvelope_eq (s : Session) (msg : MailMessage) :
  withEnvelope s msg
  = mkMailMessage (from s) (to s) (Subject msg) (PlainText msg) (HTMLText msg).
Proof.
  unfold withEnvelope. destruct msg as [f t su p h]. cbn.
  destruct (String.eqb_spec f (from s)) as [->|]; cbn;
    destruct (String.eqb_spec t (to s)) as [->|]; done.
Qed.

Section Envelope.

Variable EqualFold : string -> string -> bool.
Variable ParseMediaType : string -> string * Headers * option error.
Variable NewReader : string -> string -> PartReader.
Variable callBackFn : nat -> MailMessage -> option error.
Variable order : nat -> nat -> RangeOrder.

Local Abbreviation iteration :=
  (iteration EqualFold ParseMediaType NewReader callBackFn order).
Local Abbreviation handleData :=
  (handleData EqualFold ParseMediaType NewReader callBackFn order).
Local Abbreviation commandLoop :=
  (commandLoop EqualFold ParseMediaType NewReader callBackFn order).
Local Abbreviation handleConnection :=
  (handleConnection EqualFold ParseMediaType NewReader callBackFn order).

Lemma handleData_consistent (s : Session) :
  consistent s -> after consistent (handleData s).
Proof.
  intros Hs. unfold handleData.
  destruct (collectMailData (rx (conn s))) as [mailData rest].
  destruct (String.eqb mailData ""); [apply after_reply; auto|].
  destruct (parseMailData _ _ _ _ mailData) as [msg|err];
    [|apply after_reply; auto].
  fold (withEnvelope (set_conn s (set_rx (conn s) rest)) msg).
  rewrite withEnvelope_eq.
  match goal with
  | |- context [record ?s0 (EvDispatch ?m0)] =>
      assert (consistent (record s0 (EvDispatch m0))) as Hd
        by (by apply consistent_dispatch)
  end.
  destruct (callBackFn _ _); apply after_reply_ignore; auto.
Qed.

Lemma iteration_consistent (s : Session) :
  consistent s -> after consistent (iteration s).
Proof.
  intros Hs. unfold iteration.
  destruct (ReadString (rx (conn s))) as [[raw rest]|]; [|done].
  set (line := TrimSpace raw).
  assert (commandKind line <> MAIL_FROM -> commandKind line <> RCPT_TO ->
          forall c, consistent (set_conn (record (set_conn s (set_rx (conn s) rest))
                                  (EvCommand line)) c)) as Hc.
  { intros Hm Hr c. exact (consistent_command s c line Hs Hm Hr). }
  destruct (commandKind line) eqn:Hk.
  - by apply Hc.
  - pose proof (consistent_mail_from s (set_rx (conn s) rest) line Hs Hk) as H.
    destruct (parseAddress line) as [a [e|]]; apply after_reply; auto.
  - pose proof (consistent_rcpt_to s (set_rx (conn s) rest) line Hs Hk) as H.
    destruct (parseAddress line) as [a [e|]];
      [apply after_reply | apply after_reply_ignore]; auto.
  - apply after_writeOrReturn; [by apply Hc|]. intros c.
    apply after_flushOrReturn; [by apply Hc|]. intros c'.
    apply handleData_consistent. by apply Hc.
  - apply after_reply; [by apply Hc|auto].
  - apply after_reply_ignore; [by apply Hc|auto].
  - by apply (Hc ltac:(done) ltac:(done) (set_rx (conn s) rest)).
  - apply after_reply_ignore; [by apply Hc|auto].
Qed.

Lemma commandLoop_consistent (rounds : nat) (s s' : Session)
    (err : option error) :
  consistent s -> commandLoop rounds s = Some (s', err) -> consistent s'.
Proof.
  revert s. induction rounds as [|rounds IH]; intros s Hs; [done|].
  cbn. pose proof (iteration_consistent s Hs) as Hi.
  destruct (iteration s) as [s1|s1 e]; [by apply IH|].
  by intros [= <- _].
Qed.

Lemma handleConnection_consistent (c : Conn) :
  consistent (handleConnection c).1.
Proof.
  assert (forall c', consistent (mkSession c' "" "" [])) as H0.
  { intros c'. split; [done|]. split; [done|].
    intros h1 m h2 Heq. by destruct h1. }
  unfold handleConnection. destruct (deadlineErr c); [apply H0|].
  destruct (WriteString c _) as [c1 [e|]]; [apply H0|].
  destruct (Flush c1) as [c2 [e|]]; [apply H0|]. cbn [set_conn].
  destruct (commandLoop _ _) as [[s' err]|] eqn:Hl; [|apply H0].
  apply (commandLoop_consistent _ _ _ _ (H0 c2)) in Hl. apply Hl.
Qed.

(** C9: every message that a session hands to the callback has [From] and
    [To] equal to the envelope of the session at that moment, the
    addresses of the latest MAIL FROM and RCPT TO commands, whatever the
    headers of the message declared; a field whose command was never
    issued before is the empty string. *)
Theorem dispatched_message_carries_envelope
    (c : Conn) (h1 h2 : list Event) (m : MailMessage) :
  history (handleConnection c).1 = h1 ++ EvDispatch m :: h2 ->
  From m = envelopeFrom h1 /\ To m = envelopeTo h1
  /\ (neverIssued MAIL_FROM h1 -> From m = "")
  /\ (neverIssued RCPT_TO h1 -> To m = "").
Proof.
  intros Hh. destruct (handleConnection_consistent c) as (_ & _ & He).
  destruct (He h1 m h2 Hh) as [Hf Ht]. rewrite Hf, Ht.
  repeat split; apply envelope_neverIssued.
Qed.

End Envelope.

(** A session without MAIL FROM whose message declares both addresses in
    its headers. *)
Definition spoofedInput : string :=
  crlfLines [ "RCPT TO:<to@example.com>"; "DATA";
              "From: spoof@example.org"; "To: other@example.org";
              "Subject: hi"; ""; "body"; "."; "QUIT" ].

Definition spoofedMessage : MailMessage :=
  mkMailMessage "" "to@example.com" "hi" "body" "".

Lemma dispatched_message_carries_envelope_witness :
  From spoofedMessage
  = envelopeFrom [EvCommand "RCPT TO:<to@example.com>"; EvCommand "DATA"]
  /\ To spoofedMessage
     = envelopeTo [EvCommand "RCPT TO:<to@example.com>"; EvCommand "DATA"]
  /\ (neverIssued MAIL_FROM
        [EvCommand "RCPT TO:<to@example.com>"; EvCommand "DATA"] ->
      From spoofedMessage = "")
  /\ (neverIssued RCPT_TO
        [EvCommand "RCPT TO:<to@example.com>"; EvCommand "DATA"] ->
      To spoofedMessage = "").
Proof.
  apply (dispatched_message_carries_envelope Ref.EqualFold Ref.ParseMediaType
           Ref.NewReader Ref.callBackFn Ref.order (Ref.client spoofedInput)
           [EvCommand "RCPT TO:<to@example.com>"; EvCommand "DATA"]
           [EvCommand "QUIT"] spoofedMessage).
  vm_compute. reflexivity.
Defined.

(* ===================================================================== *)
(** ** Header lookup                                                     *)
(* ===================================================================== *)

Lemma valid_listed_order : valid_order listed_order.
Proof. by intros m. Qed.

Lemma valid_reversed_order : valid_order reversed_order.
Proof. intros m. apply reverse_Permutation. Qed.

Section Lookup.

Variable EqualFold : string -> string -> bool.

Local Abbreviation lookupIn := (getHeader_range EqualFold).

(** A lookup returns the value of an entry whose key folds to the name, or
    the empty string when there is no such entry. *)
Lemma getHeader_range_spec (entries : list (string * string)) (key : string) :
  (exists k, (k, lookupIn entries key) ∈ entries
             /\ EqualFold k key = true)
  \/ (lookupIn entries key = ""
      /\ forall k v, (k, v) ∈ entries -> EqualFold k key = false).
Proof.
  induction entries as [|[k v] entries IH]; cbn.
  - right. split; [done|]. intros k v Hin. by apply elem_of_nil in Hin.
  - destruct (EqualFold k key) eqn:Hk.
    + left. exists k. split; [by left | done].
    + destruct IH as [(k' & Hin & Hk')|[Hnone Hall]].
      * left. exists k'. split; [by right | done].
      * right. split; [done|]. intros k' v' [[= -> ->]|Hin]%elem_of_cons;
          [done | by eapply Hall].
Qed.

(** The name [key] is unambiguous in a map when at most one of its keys
    folds to it. *)
Definition unambiguous (headers : Headers) (key : string) : Prop :=
  forall k1 k2 : string,
    is_Some (headers !! k1) -> is_Some (headers !! k2) ->
    EqualFold k1 key = true -> EqualFold k2 key = true -> k1 = k2.

Lemma elem_of_order (order : RangeOrder) (headers : Headers) (k v : string) :
  valid_order order -> (k, v) ∈ order headers <-> headers !! k = Some v.
Proof. intros Hv. by rewrite (Hv headers), elem_of_map_to_list. Qed.

(** For an unambiguous name the lookup does not depend on the order in
    which the map is traversed. *)
Lemma getHeader_unambiguous (o1 o2 : RangeOrder) (headers : Headers)
    (key : string) :
  valid_order o1 -> valid_order o2 -> unambiguous headers key ->
  getHeader EqualFold o1 headers key = getHeader EqualFold o2 headers key.
Proof.
  intros H1 H2 Hu. unfold getHeader.
  destruct (getHeader_range_spec (o1 headers) key)
    as [(k1 & Hin1 & Hk1)|[Hn1 Hall1]];
    destruct (getHeader_range_spec (o2 headers) key)
      as [(k2 & Hin2 & Hk2)|[Hn2 Hall2]].
  - apply (elem_of_order _ _ _ _ H1) in Hin1.
    apply (elem_of_order _ _ _ _ H2) in Hin2.
    assert (k1 = k2) as -> by (by apply Hu). congruence.
  - apply (elem_of_order _ _ _ _ H1) in Hin1.
    apply (elem_of_order _ _ _ _ H2) in Hin1.
    apply Hall2 in Hin1. congruence.
  - apply (elem_of_order _ _ _ _ H2) in Hin2.
    apply (elem_of_order _ _ _ _ H1) in Hin2.
    apply Hall1 in Hin2. congruence.
  - congruence.
Qed.

End Lookup.

(* ===================================================================== *)
(** ** The parser: when it fails, and what it depends on                 *)
(* ===================================================================== *)

(** The blank line between the header block and the body. *)
Definition separator : string := CRLF +:+ CRLF.

Lemma parseHeadersAndBody_eq (data : string) :
  parseHeadersAndBody data =
    match Index data separator with
    | None => Err "invalid mail format: missing headers or body"
    | Some i =>
        match parseHeaderLines (Split (slice_to i data) CRLF) ∅ with
        | Err e => Err e
        | Ok headers => Ok (headers, slice_from (i + 4) data)
        end
    end.
Proof.
  unfold parseHeadersAndBody. fold separator. rewrite SplitN_2 by done.
  by destruct (Index data separator).
Qed.

Lemma parseHeaderLines_Err (lines : list string) (headers : Headers)
    (e : error) :
  parseHeaderLines lines headers = Err e ->
  exists line, line ∈ lines /\ Index line ":" = None
               /\ e = "invalid header format: " +:+ line.
Proof.
  revert headers. induction lines as [|l lines IH]; intros headers; cbn.
  - done.
  - destruct (Index l ":") as [i|] eqn:Hi.
    + intros (line & Hin & H)%IH. exists line. split; [by right | done].
    + intros [= <-]. exists l. split; [by left | done].
Qed.

Lemma parseHeaderLines_bad (lines : list string) (headers : Headers)
    (line : string) :
  line ∈ lines -> Index line ":" = None ->
  exists bad, parseHeaderLines lines headers
              = Err ("invalid header format: " +:+ bad)
              /\ bad ∈ lines /\ Index bad ":" = None.
Proof.
  intros Hin Hline.
  destruct (parseHeaderLines lines headers) as [h|e] eqn:Hp.
  - exfalso. revert headers h Hp.
    induction lines as [|l lines IH]; intros headers h; cbn.
    + by apply elem_of_nil in Hin.
    + apply elem_of_cons in Hin as [<-|Hin].
      * by rewrite Hline.
      * destruct (Index l ":"); [by apply IH | done].
  - apply parseHeaderLines_Err in Hp as (bad & ? & ? & ->). by exists bad.
Qed.

Section ParserFacts.

Variable EqualFold : string -> string -> bool.
Variable ParseMediaType : string -> string * Headers * option error.
Variable NewReader : string -> string -> PartReader.

Local Abbreviation parse :=
  (parseMailData EqualFold ParseMediaType NewReader).
Local Abbreviation header := (getHeader EqualFold).

(** The message before its body is filled in. *)
Definition headerMessage (order : nat -> RangeOrder) (headers : Headers)
  : MailMessage :=
  mkMailMessage (header (order 0%nat) headers "From")
                (header (order 1%nat) headers "To")
                (header (order 2%nat) headers "Subject") "" "".

Definition contentTypeOf (order : nat -> RangeOrder) (headers : Headers)
  : string :=
  header (order 3%nat) headers "Content-Type".

(** The ways in which a raw message is rejected: it has no blank line; a
    line of its header block has no colon; its Content-Type is not empty
    and malformed; it is multipart and the decomposer reports an error. *)
Definition rejected (order : nat -> RangeOrder) (data : string) : Prop :=
  match Index data separator with
  | None => True
  | Some i =>
      let lines := Split (slice_to i data) CRLF in
      let body := slice_from (i + 4) data in
      (exists line, line ∈ lines /\ Index line ":" = None)
      \/ exists headers,
           parseHeaderLines lines ∅ = Ok headers
           /\ let contentType := contentTypeOf order headers in
              let mediaType := (ParseMediaType contentType).1.1 in
              let params := (ParseMediaType contentType).1.2 in
              (contentType <> "" /\ is_Some (ParseMediaType contentType).2)
              \/ (HasPrefix mediaType "multipart/" = true
                  /\ is_Some (processMultipartMessage NewReader body
                                (param params "boundary")
                                (headerMessage order headers)).2)
  end.

(** [parseMailData] after the headers are parsed. *)
Lemma parse_headers (order : nat -> RangeOrder) (data : string) (i : nat)
    (headers : Headers) :
  Index data separator = Some i ->
  parseHeaderLines (Split (slice_to i data) CRLF) ∅ = Ok headers ->
  parse order data =
    let contentType := contentTypeOf order headers in
    let mediaType := (ParseMediaType contentType).1.1 in
    let params := (ParseMediaType contentType).1.2 in
    match (ParseMediaType contentType).2 with
    | Some err' =>
        if negb (String.eqb contentType "")
        then Err ("error parsing Content-Type: " +:+ err')
        else fillBody NewReader mediaType params (slice_from (i + 4) data)
               (headerMessage order headers)
    | None =>
        fillBody NewReader mediaType params (slice_from (i + 4) data)
          (headerMessage order headers)
    end.
Proof.
  intros Hi Hh. unfold parseMailData. rewrite parseHeadersAndBody_eq, Hi, Hh.
  unfold contentTypeOf, headerMessage. cbn zeta.
  by destruct (ParseMediaType _) as [[mt params] [e|]].
Qed.

Lemma parse_rejected (order : nat -> RangeOrder) (data : string) :
  is_err (parse order data) = true <-> rejected order data.
Proof.
  unfold rejected.
  destruct (Index data separator) as [i|] eqn:Hi.
  2:{ unfold parseMailData. rewrite parseHeadersAndBody_eq, Hi. done. }
  destruct (parseHeaderLines (Split (slice_to i data) CRLF) ∅)
    as [headers|e] eqn:Hh.
  - rewrite (parse_headers order data i headers Hi Hh). cbn zeta.
    set (ct := contentTypeOf order headers).
    destruct (ParseMediaType ct) as [[mt params] err] eqn:Hpm. cbn [fst snd].
    assert (is_err (fillBody NewReader mt params (slice_from (i + 4) data)
                      (headerMessage order headers)) = true
            <-> HasPrefix mt "multipart/" = true
                /\ is_Some (processMultipartMessage NewReader
                              (slice_from (i + 4) data)
                              (param params "boundary")
                              (headerMessage order headers)).2) as Hfill.
    { unfold fillBody. destruct (HasPrefix mt "multipart/").
      - destruct (processMultipartMessage _ _ _ _) as [m [e|]]; cbn.
        + split; [by eauto | done].
        + split; [done | by intros [_ [? ?]]].
      - cbn. split; [done | by intros [? _]]. }
    split.
    + intros Herr. right. exists headers. split; [done|].
      cbn zeta. fold ct. rewrite Hpm. cbn [fst snd].
      destruct err as [e|].
      * destruct (String.eqb_spec ct "") as [Hct|Hct]; cbn in Herr.
        -- right. exact (proj1 Hfill Herr).
        -- left. by eauto.
      * right. exact (proj1 Hfill Herr).
    + intros [(line & Hin & Hline)|(h' & [= <-] & H)].
      * destruct (parseHeaderLines_bad _ ∅ line Hin Hline) as (bad & Hbad & _).
        congruence.
      * cbn zeta in H. fold ct in H. rewrite Hpm in H. cbn [fst snd] in H.
        destruct H as [[Hct [e ->]]|Hmp].
        -- by destruct (String.eqb_spec ct "").
        -- apply (proj2 Hfill) in Hmp. destruct err as [e|]; [|done].
           by destruct (negb (String.eqb ct "")).
  - unfold parseMailData. rewrite parseHeadersAndBody_eq, Hi, Hh. cbn.
    split; [|done]. intros _. left.
    apply parseHeaderLines_Err in Hh as (line & ? & ? & _). by exists line.
Qed.

(** Whether two runs of the parser traverse the map in the same order does
    not matter when the four names are unambiguous. *)
Definition lookedUp : list string := ["From"; "To"; "Subject"; "Content-Type"].

Lemma parse_order_irrelevant (order1 order2 : nat -> RangeOrder)
    (data : string) :
  (forall i, valid_order (order1 i)) -> (forall i, valid_order (order2 i)) ->
  (forall headers body,
     parseHeadersAndBody data = Ok (headers, body) ->
     Forall (unambiguous EqualFold headers) lookedUp) ->
  parse order1 data = parse order2 data.
Proof.
  intros H1 H2 Hu. unfold parseMailData.
  destruct (parseHeadersAndBody data) as [[headers body]|e] eqn:Hp; [|done].
  specialize (Hu headers body eq_refl). unfold lookedUp in Hu.
  rewrite !Forall_cons in Hu. destruct Hu as (Hf & Ht & Hs & Hc & _).
  rewrite (getHeader_unambiguous EqualFold (order1 0%nat) (order2 0%nat)
             headers "From") by done.
  rewrite (getHeader_unambiguous EqualFold (order1 1%nat) (order2 1%nat)
             headers "To") by done.
  rewrite (getHeader_unambiguous EqualFold (order1 2%nat) (order2 2%nat)
             headers "Subject") by done.
  by rewrite (getHeader_unambiguous EqualFold (order1 3%nat) (order2 3%nat)
                headers "Content-Type") by done.
Qed.

End ParserFacts.

(** A check that a name is unambiguous in a given map. *)
Lemma unambiguous_check (EqualFold : string -> string -> bool)
    (headers : Headers) (key : string) :
  (length (filter (fun kv => EqualFold kv.1 key = true)
             (map_to_list headers)) <= 1)%nat ->
  unambiguous EqualFold headers key.
Proof.
  intros Hlen k1 k2 [v1 H1] [v2 H2] Hk1 Hk2.
  apply elem_of_map_to_list in H1, H2.
  assert ((k1, v1) ∈ filter (fun kv => EqualFold kv.1 key = true)
                       (map_to_list headers)) as Hin1
    by (by apply list_elem_of_filter).
  assert ((k2, v2) ∈ filter (fun kv => EqualFold kv.1 key = true)
                       (map_to_list headers)) as Hin2
    by (by apply list_elem_of_filter).
  destruct (filter _ (map_to_list headers)) as [|x [|y l]]; cbn in Hlen.
  - by apply elem_of_nil in Hin1.
  - apply list_elem_of_singleton in Hin1, Hin2. congruence.
  - lia.
Qed.

(** Two header lines whose keys differ in case only, and two with the
    same key. *)
Definition ambiguousMessage : string :=
  TrimSpace (crlfLines ["Subject: first"; "subject: second"; ""; "body"]).

Definition duplicateMessage : string :=
  TrimSpace (crlfLines ["Subject: first"; "Subject: second"; ""; "body"]).

(** C7, as stated, fails for keys that differ in case only: two runs that
    traverse the header map in different orders give different messages. *)
Lemma parse_depends_on_map_order :
  valid_order listed_order /\ valid_order reversed_order
  /\ parseMailData Ref.EqualFold Ref.ParseMediaType Ref.NewReader
       (fun _ => listed_order) ambiguousMessage
     = Ok (mkMailMessage "" "" "second" "body" "")
  /\ parseMailData Ref.EqualFold Ref.ParseMediaType Ref.NewReader
       (fun _ => reversed_order) ambiguousMessage
     = Ok (mkMailMessage "" "" "first" "body" "")
  /\ parseMailData Ref.EqualFold Ref.ParseMediaType Ref.NewReader
       (fun _ => listed_order) ambiguousMessage
     <> parseMailData Ref.EqualFold Ref.ParseMediaType Ref.NewReader
          (fun _ => reversed_order) ambiguousMessage.
Proof.
  split; [apply valid_listed_order|]. split; [apply valid_reversed_order|].
  by vm_compute.
Qed.

(** C7, amended: parsing is a function of the raw text and of the orders
    in which the header map is traversed; two runs on the same text give
    the same result, an error or a message, whenever each of the four
    names that are looked up is matched, under case folding, by at most
    one key of the header mapping.  Lines that repeat a key exactly are
    covered: they share one entry of the mapping, that of the last line. *)
Theorem parse_deterministic_when_unambiguous
    (EqualFold : string -> string -> bool)
    (ParseMediaType : string -> string * Headers * option error)
    (NewReader : string -> string -> PartReader)
    (order1 order2 : nat -> RangeOrder) (data : string) :
  (forall i, valid_order (order1 i)) -> (forall i, valid_order (order2 i)) ->
  (forall headers body,
     parseHeadersAndBody data = Ok (headers, body) ->
     Forall (unambiguous EqualFold headers) lookedUp) ->
  parseMailData EqualFold ParseMediaType NewReader order1 data
  = parseMailData EqualFold ParseMediaType NewReader order2 data.
Proof. apply parse_order_irrelevant. Qed.

Lemma parse_deterministic_when_unambiguous_witness :
  parseMailData Ref.EqualFold Ref.ParseMediaType Ref.NewReader
    (fun _ => listed_order) duplicateMessage
  = parseMailData Ref.EqualFold Ref.ParseMediaType Ref.NewReader
      (fun _ => reversed_order) duplicateMessage.
Proof.
  apply (parse_deterministic_when_unambiguous Ref.EqualFold
           Ref.ParseMediaType Ref.NewReader
           (fun _ => listed_order) (fun _ => reversed_order)
           duplicateMessage).
  - intros _. apply valid_listed_order.
  - intros _. apply valid_reversed_order.
  - intros headers body Hp. vm_compute in Hp. injection Hp as <- _.
    repeat constructor; apply unambiguous_check; vm_compute; lia.
Defined.

Example duplicate_key_last_line_wins :
  parseMailData Ref.EqualFold Ref.ParseMediaType Ref.NewReader
    (fun _ => reversed_order) duplicateMessage
  = Ok (mkMailMessage "" "" "second" "body" "").
Proof. by vm_compute. Qed.

(** C6: a message whose media type is multipart and whose Content-Type
    has no boundary parameter is rejected, the multipart reader of Go's
    library refusing the empty boundary at its first part. *)
Theorem multipart_without_boundary_rejected
    (EqualFold : string -> string -> bool)
    (ParseMediaType : string -> string * Headers * option error)
    (NewReader : string -> string -> PartReader)
    (order : nat -> RangeOrder) (data : string) (i : nat)
    (headers : Headers) :
  (forall body, exists e, NewReader body "" = NextPartFails e) ->
  Index data separator = Some i ->
  parseHeaderLines (Split (slice_to i data) CRLF) ∅ = Ok headers ->
  HasPrefix (ParseMediaType (contentTypeOf EqualFold order headers)).1.1
    "multipart/" = true ->
  (ParseMediaType (contentTypeOf EqualFold order headers)).1.2 !! "boundary"
  = None ->
  exists err,
    parseMailData EqualFold ParseMediaType NewReader order data = Err err.
Proof.
  intros Hlib Hi Hh Hmp Hb.
  rewrite (parse_headers _ _ _ order data i headers Hi Hh). cbn zeta.
  assert (exists err,
            fillBody NewReader
              (ParseMediaType (contentTypeOf EqualFold order headers)).1.1
              (ParseMediaType (contentTypeOf EqualFold order headers)).1.2
              (slice_from (i + 4) data)
              (headerMessage EqualFold order headers) = Err err) as [err Hf].
  { unfold fillBody, processMultipartMessage, param.
    rewrite Hmp, Hb. cbn [default].
    destruct (Hlib (slice_from (i + 4) data)) as [e ->]. by eexists. }
  rewrite Hf. destruct (ParseMediaType _).2; [|by eexists].
  destruct (negb _); by eexists.
Qed.

Definition noBoundaryMessage : string :=
  TrimSpace (crlfLines [ "Subject: hi"; "Content-Type: multipart/mixed"; "";
                         "--x"; ""; "text"; "--x--" ]).

Lemma multipart_without_boundary_rejected_witness :
  exists err,
    parseMailData Ref.EqualFold Ref.ParseMediaType Ref.NewReader
      (fun _ => listed_order) noBoundaryMessage = Err err.
Proof.
  apply (multipart_without_boundary_rejected Ref.EqualFold Ref.ParseMediaType
           Ref.NewReader (fun _ => listed_order) noBoundaryMessage 42%nat
           (<["Content-Type" := "multipart/mixed"]> (<["Subject" := "hi"]> ∅))).
  - intros body. by eexists.
  - by vm_compute.
  - by vm_compute.
  - by vm_compute.
  - by vm_compute.
Defined.

(* ===================================================================== *)
(** ** Rejected messages                                                 *)
(* ===================================================================== *)

Definition startMailInput : string :=
  "354 Start mail input; end with <CRLF>.<CRLF>" +:+ CRLF.

Lemma closed_after_handleConnection
    (EqualFold : string -> string -> bool)
    (ParseMediaType : string -> string * Headers * option error)
    (NewReader : string -> string -> PartReader)
    (callBackFn : nat -> MailMessage -> option error)
    (order : nat -> nat -> RangeOrder) (c : Conn) :
  closed (conn (handleConnection EqualFold ParseMediaType NewReader
                  callBackFn order c).1) = true.
Proof.
  unfold handleConnection. destruct (deadlineErr c); [done|].
  destruct (WriteString c _) as [c1 [e|]]; [done|].
  destruct (Flush c1) as [c2 [e|]]; [done|].
  by destruct (default _ _).
Qed.

Section Rejection.

Variable EqualFold : string -> string -> bool.
Variable ParseMediaType : string -> string * Headers * option error.
Variable NewReader : string -> string -> PartReader.
Variable callBackFn : nat -> MailMessage -> option error.
Variable order : nat -> nat -> RangeOrder.

Local Abbreviation parse :=
  (parseMailData EqualFold ParseMediaType NewReader).
Local Abbreviation iteration :=
  (iteration EqualFold ParseMediaType NewReader callBackFn order).
Local Abbreviation commandLoop :=
  (commandLoop EqualFold ParseMediaType NewReader callBackFn order).
Local Abbreviation handleConnection :=
  (handleConnection EqualFold ParseMediaType NewReader callBackFn order).

(** A DATA round whose message the parser rejects. *)
Lemma round_data_rejected (s : Session) (raw rest mailData rest' : string)
    (err : error) :
  healthy (conn s) ->
  ReadString (rx (conn s)) = Some (raw, rest) ->
  commandKind (TrimSpace raw) = DATA ->
  collectMailData rest = (mailData, rest') ->
  mailData <> "" ->
  (forall o, parse o mailData = Err err) ->
  exists s',
    iteration s = Return s' None
    /\ tx (conn s')
       = tx (conn s)
         ++ [startMailInput; "550 Error processing mail: " +:+ err +:+ CRLF].
Proof.
  intros Hh Hread Hk Hc Hne Hp.
  rewrite (round_data _ _ _ _ _ s raw rest Hh Hread Hk).
  assert (forall msg, rx (conn (replied (commanded s raw rest) msg)) = rest)
    as Hrx by reflexivity.
  unfold handleData. rewrite Hrx, Hc.
  destruct (String.eqb_spec mailData ""); [done|].
  rewrite Hp. rewrite writeOrReturn_flush_healthy; [|done|by destruct err].
  eexists. split; [done|]. cbn. by rewrite <- app_assoc.
Qed.

(** C3: the parser returns an error exactly for the raw texts that are
    [rejected]: no blank line, a header line without colon, a Content-Type
    that is not empty and malformed, or an error of the multipart
    decomposer.  With an absent or empty Content-Type it does not fail on
    it, and the raw body is the plain text.  A header line without colon
    makes the DATA round answer with the permanent rejection 550 and leave
    [handleConnection], which closes the connection. *)
Theorem parse_fails_exactly_when_rejected :
  (ParseMediaType "").1.1 = "" ->
  (forall (o : nat -> RangeOrder) (data : string),
     is_err (parse o data) = true
     <-> rejected EqualFold ParseMediaType NewReader o data)
  /\ (forall (o : nat -> RangeOrder) (data : string) (i : nat)
        (headers : Headers),
        Index data separator = Some i ->
        parseHeaderLines (Split (slice_to i data) CRLF) ∅ = Ok headers ->
        contentTypeOf EqualFold o headers = "" ->
        parse o data
        = Ok (set_PlainText (headerMessage EqualFold o headers)
                (slice_from (i + 4) data)))
  /\ (forall (s : Session) (raw rest mailData rest' : string) (i : nat)
        (line : string),
        healthy (conn s) ->
        ReadString (rx (conn s)) = Some (raw, rest) ->
        commandKind (TrimSpace raw) = DATA ->
        collectMailData rest = (mailData, rest') ->
        Index mailData separator = Some i ->
        line ∈ Split (slice_to i mailData) CRLF ->
        Index line ":" = None ->
        exists (s' : Session) (bad : string),
          iteration s = Return s' None
          /\ (forall n, commandLoop (S n) s = Some (s', None))
          /\ bad ∈ Split (slice_to i mailData) CRLF
          /\ Index bad ":" = None
          /\ tx (conn s')
             = tx (conn s)
               ++ [startMailInput;
                   "550 Error processing mail: invalid header format: "
                   +:+ bad +:+ CRLF])
  /\ (forall c : Conn, closed (conn (handleConnection c).1) = true).
Proof.
  intros Hlib. split; [|split; [|split]].
  - apply parse_rejected.
  - intros o data i headers Hi Hh Hct.
    rewrite (parse_headers _ _ _ o data i headers Hi Hh). cbn zeta.
    rewrite Hct. unfold fillBody. rewrite Hlib. cbn.
    by destruct (ParseMediaType "").2.
  - intros s raw rest mailData rest' i line Hh Hread Hk Hc Hi Hin Hline.
    destruct (parseHeaderLines_bad _ ∅ line Hin Hline)
      as (bad & Hbad & Hbin & Hbline).
    destruct (round_data_rejected s raw rest mailData rest'
                ("invalid header format: " +:+ bad) Hh Hread Hk Hc)
      as (s' & Hs' & Htx).
    + intros ->. by vm_compute in Hi.
    + intros o. unfold parseMailData.
      by rewrite parseHeadersAndBody_eq, Hi, Hbad.
    + exists s', bad. split; [done|]. split; [|by rewrite <- app_assoc' in Htx].
      intros n. cbn. by rewrite Hs'.
  - apply closed_after_handleConnection.
Qed.

End Rejection.

(** A session whose message has a header line without colon. *)
Definition brokenHeaderInput : string :=
  crlfLines [ "DATA"; "Subject: hi"; "no colon here"; ""; "body"; "." ].

Lemma parse_fails_exactly_when_rejected_witness :
  exists (s' : Session) (bad : string),
    iteration Ref.EqualFold Ref.ParseMediaType Ref.NewReader Ref.callBackFn
      Ref.order (sessionAt brokenHeaderInput "a" "b")
    = Return s' None
    /\ (forall n,
          commandLoop Ref.EqualFold Ref.ParseMediaType Ref.NewReader
            Ref.callBackFn Ref.order (S n) (sessionAt brokenHeaderInput "a" "b")
          = Some (s', None))
    /\ bad ∈ Split (slice_to 26
                      (collectMailData
                         (slice_from 6 brokenHeaderInput)).1) CRLF
    /\ Index bad ":" = None
    /\ tx (conn s')
       = [] ++ [startMailInput;
                "550 Error processing mail: invalid header format: "
                +:+ bad +:+ CRLF].
Proof.
  apply (proj1 (proj2 (proj2
           (parse_fails_exactly_when_rejected Ref.EqualFold Ref.ParseMediaType
              Ref.NewReader Ref.callBackFn Ref.order eq_refl)))
           (sessionAt brokenHeaderInput "a" "b") ("DATA" +:+ CRLF)
           (slice_from 6 brokenHeaderInput)
           (collectMailData (slice_from 6 brokenHeaderInput)).1
           (collectMailData (slice_from 6 brokenHeaderInput)).2
           26%nat "no colon here").
  - done.
  - reflexivity.
  - reflexivity.
  - reflexivity.
  - reflexivity.
  - vm_compute. apply list_elem_of_In. cbn. auto.
  - reflexivity.
Defined.

(* ===================================================================== *)
(** ** Shutdown is guarded                                               *)
(* ===================================================================== *)

(** What holds while the first call of [Shutdown] on the server [s0]
    runs: the signal is given before the call waits, and the listener is
    closed, once, only at the end. *)
Definition firstCall (s0 : Lifecycle.Server)
    (st : Lifecycle.Pc * Lifecycle.Server) : Prop :=
  match st.1 with
  | Lifecycle.AtSelect =>
      Lifecycle.done st.2 = false
      /\ Lifecycle.listener st.2 = Lifecycle.listener s0
  | Lifecycle.AtWait | Lifecycle.AtClose =>
      Lifecycle.done st.2 = true
      /\ Lifecycle.listener st.2 = Lifecycle.listener s0
  | Lifecycle.Returned err =>
      Lifecycle.done st.2 = true
      /\ Lifecycle.listener st.2 = S <$> Lifecycle.listener s0
      /\ err = (Lifecycle.Close s0).2
  end.

(** What holds while a call runs that started after the signal. *)
Definition laterCall (s0 : Lifecycle.Server)
    (st : Lifecycle.Pc * Lifecycle.Server) : Prop :=
  (st.1 = Lifecycle.AtSelect
   \/ st.1 = Lifecycle.Returned (Some "server already closed"))
  /\ Lifecycle.done st.2 = true
  /\ Lifecycle.listener st.2 = Lifecycle.listener s0.

Lemma firstCall_step (s0 : Lifecycle.Server)
    (st st' : Lifecycle.Pc * Lifecycle.Server) :
  firstCall s0 st -> Lifecycle.step st st' -> firstCall s0 st'.
Proof.
  intros Hinv Hstep. destruct Hstep as [pc s pc' s' Hs|pc s n Hwg|pc s Hl];
    unfold firstCall in *; cbn [fst snd] in *.
  - destruct pc; cbn in Hs.
    + destruct Hinv as [Hd Hl]. rewrite Hd in Hs. by injection Hs as <- <-.
    + destruct (Lifecycle.wg s); [|done]. by injection Hs as <- <-.
    + destruct Hinv as [Hd Hl]. unfold Lifecycle.Close in *. rewrite Hl in Hs.
      destruct (Lifecycle.listener s0) as [[|n]|]; by injection Hs as <- <-.
    + done.
  - by destruct pc.
  - by destruct pc.
Qed.

Lemma laterCall_step (s0 : Lifecycle.Server)
    (st st' : Lifecycle.Pc * Lifecycle.Server) :
  laterCall s0 st -> Lifecycle.step st st' -> laterCall s0 st'.
Proof.
  intros ([Hpc|Hpc] & Hd & Hl) Hstep;
    destruct Hstep as [pc s pc' s' Hs|pc s n Hwg|pc s Hl'];
    cbn in Hpc, Hd, Hl; subst pc; cbn in *; try done.
  - rewrite Hd in Hs. injection Hs as <- <-. unfold laterCall. cbn. auto.
  - unfold laterCall. cbn. auto.
  - unfold laterCall. cbn. auto.
  - unfold laterCall. cbn. auto.
  - unfold laterCall. cbn. auto.
Qed.

(** C8: the first call of [Shutdown] closes the channel [done], leaves
    [Wait] only when no session is in flight, and then closes the listener;
    every call that starts after the signal returns the error
    ["server already closed"] and leaves the listener as it is. *)
Theorem Shutdown_guarded :
  (forall s0 st,
     Lifecycle.done s0 = false ->
     rtc Lifecycle.step (Lifecycle.AtSelect, s0) st -> firstCall s0 st)
  /\ (forall s,
        Lifecycle.wg s <> O ->
        Lifecycle.shutdownStep Lifecycle.AtWait s = None)
  /\ (forall s pc' s',
        Lifecycle.step (Lifecycle.AtWait, s) (pc', s') ->
        pc' = Lifecycle.AtClose -> Lifecycle.wg s = O /\ s' = s)
  /\ (forall s0 st,
        Lifecycle.done s0 = true ->
        rtc Lifecycle.step (Lifecycle.AtSelect, s0) st -> laterCall s0 st)
  /\ (forall s s1 e1,
        Lifecycle.done s = false ->
        Lifecycle.Shutdown s = Some (s1, e1) ->
        Lifecycle.wg s = O
        /\ Lifecycle.done s1 = true
        /\ Lifecycle.listener s1 = S <$> Lifecycle.listener s
        /\ Lifecycle.Shutdown s1 = Some (s1, Some "server already closed")).
Proof.
  split; [|split; [|split; [|split]]].
  - intros s0 st Hd Hrun.
    revert st Hrun. apply (rtc_ind_r (R := Lifecycle.step) (firstCall s0));
      [done|].
    intros y z _ Hstep Hy. by eapply firstCall_step.
  - intros s Hwg. cbn. by destruct (Lifecycle.wg s).
  - intros s pc' s' Hstep ->. inversion Hstep as [pc s2 pc2 s2' Hs| |]; subst.
    cbn in Hs. destruct (Lifecycle.wg s); [|done]. by injection Hs as <-.
  - intros s0 st Hd Hrun.
    revert st Hrun. apply (rtc_ind_r (R := Lifecycle.step) (laterCall s0));
      [by unfold laterCall; auto|].
    intros y z _ Hstep Hy. by eapply laterCall_step.
  - intros s s1 e1 Hd. unfold Lifecycle.Shutdown at 1. rewrite Hd.
    destruct (Lifecycle.wg s) eqn:Hwg; [|done].
    unfold Lifecycle.Close. cbn.
    destruct (Lifecycle.listener s) as [n|] eqn:Hl; intros [= <- <-]; by cbn.
Qed.

(* ===================================================================== *)
(** ** Reading lines                                                     *)
(* ===================================================================== *)

(** A line as [ReadString] returns it: it ends with its only line feed. *)
Fixpoint isLine (s : string) : bool :=
  match s with
  | EmptyString => false
  | String c s' => if Ascii.eqb c "010" then String.eqb s' "" else isLine s'
  end.

(** The bytes of some lines, one after the other. *)
Definition joined (ls : list string) : string := foldr String.append "" ls.

Lemma ReadString_line (raw rest : string) :
  isLine raw = true -> ReadString (raw +:+ rest) = Some (raw, rest).
Proof.
  induction raw as [|c raw IH]; cbn; [done|].
  destruct (Ascii.eqb c "010").
  - by intros ->%String.eqb_eq.
  - intros H. by rewrite (IH H).
Qed.

Lemma ReadString_shorter (input line rest : string) :
  ReadString input = Some (line, rest) ->
  (String.length rest < String.length input)%nat.
Proof.
  revert line rest. induction input as [|c input IH]; intros line rest; cbn.
  - done.
  - destruct (Ascii.eqb c "010"); [intros [= _ <-]; lia|].
    destruct (ReadString input) as [[l r]|]; [|done].
    intros [= _ <-]. specialize (IH l r eq_refl). lia.
Qed.

Lemma isLine_nonempty (l : string) :
  isLine l = true -> (1 <= String.length l)%nat.
Proof. destruct l; cbn; [done | intros _; lia]. Qed.

Lemma joined_length (ls : list string) :
  Forall (fun l => isLine l = true) ls ->
  (length ls <= String.length (joined ls))%nat.
Proof.
  induction 1 as [|l ls Hl _ IH]; [done|].
  change (joined (l :: ls)) with (l +:+ joined ls).
  rewrite length_app'. apply isLine_nonempty in Hl. cbn [length]. lia.
Qed.

(** [collectMailData] on the lines of a message that the end marker
    follows. *)
Lemma collectLoop_lines (ds : list string) (lend rest acc : string)
    (rounds : nat) :
  Forall (fun d => isLine d = true) ds ->
  Forall (fun d => TrimSpace d <> ".") ds ->
  isLine lend = true -> TrimSpace lend = "." ->
  (length ds < rounds)%nat ->
  collectLoop rounds (joined ds +:+ lend +:+ rest) acc
  = (TrimSpace (acc +:+ joined ds), rest).
Proof.
  intros Hl Hd Hend Hdot. revert acc rounds.
  induction ds as [|d ds IH]; intros acc [|rounds] Hr; cbn in Hr; try lia.
  - cbn. rewrite (ReadString_line lend rest Hend), Hdot. cbn.
    by rewrite app_empty_r.
  - apply Forall_cons in Hl as [Hl1 Hl], Hd as [Hd1 Hd].
    change (joined (d :: ds)) with (d +:+ joined ds). cbn [collectLoop].
    rewrite app_assoc', (ReadString_line d _ Hl1).
    destruct (String.eqb_spec (TrimSpace d) "."); [done|].
    rewrite (IH Hl Hd) by lia. by rewrite app_assoc'.
Qed.

Lemma collectMailData_lines (ds : list string) (lend rest : string) :
  Forall (fun d => isLine d = true) ds ->
  Forall (fun d => TrimSpace d <> ".") ds ->
  isLine lend = true -> TrimSpace lend = "." ->
  collectMailData (joined ds +:+ lend +:+ rest)
  = (TrimSpace (joined ds), rest).
Proof.
  intros Hl Hd Hend Hdot. unfold collectMailData.
  rewrite collectLoop_lines; try done.
  rewrite !length_app'. apply joined_length in Hl.
  apply isLine_nonempty in Hend. lia.
Qed.

Lemma collectLoop_rest (rounds : nat) (input acc : string) :
  (String.length (collectLoop rounds input acc).2 <= String.length input)%nat.
Proof.
  revert input acc. induction rounds as [|rounds IH]; intros input acc; cbn.
  - done.
  - destruct (ReadString input) as [[line rest]|] eqn:Hr; [|cbn; lia].
    apply ReadString_shorter in Hr.
    destruct (String.eqb (TrimSpace line) "."); cbn; [lia|].
    specialize (IH rest (acc +:+ line)). lia.
Qed.

(* ===================================================================== *)
(** ** The header block of a well-formed message                         *)
(* ===================================================================== *)

(** A header line with its key, which has no colon, and what follows the
    colon. *)
Definition hline (kv : string * string) : string := kv.1 +:+ ":" +:+ kv.2.

Definition addHeader (headers : Headers) (kv : string * string) : Headers :=
  <[TrimSpace kv.1 := TrimSpace kv.2]> headers.

Definition keysWithoutColon (kvs : list (string * string)) : Prop :=
  Forall (fun kv => Index kv.1 ":" = None) kvs.

Lemma parseHeaderLines_hlines (kvs : list (string * string))
    (headers : Headers) :
  keysWithoutColon kvs ->
  parseHeaderLines (hline <$> kvs) headers = Ok (foldl addHeader headers kvs).
Proof.
  intros Hk. revert headers.
  induction Hk as [|[k v] kvs Hkey _ IH]; intros headers; [done|].
  cbn [fmap list_fmap parseHeaderLines foldl].
  change (hline (k, v)) with (k +:+ String ":" v).
  rewrite (Index_byte_first k v ":" Hkey), slice_to_app.
  rewrite slice_from_add, slice_from_app. cbn [slice_from]. apply IH.
Qed.

Lemma addHeaders_lookup_inv (kvs : list (string * string)) (headers : Headers)
    (key val : string) :
  foldl addHeader headers kvs !! key = Some val ->
  headers !! key = Some val
  \/ exists kv, kv ∈ kvs /\ TrimSpace kv.1 = key /\ TrimSpace kv.2 = val.
Proof.
  revert headers. induction kvs as [|kv kvs IH]; intros headers; cbn.
  - by left.
  - intros [H|(kv' & Hin & H)]%IH.
    + unfold addHeader in H. apply lookup_insert_Some in H as [[<- <-]|[_ H]].
      * right. exists kv. split; [by left | done].
      * by left.
    + right. exists kv'. split; [by right | done].
Qed.

Lemma addHeaders_lookup_ne (kvs : list (string * string)) (headers : Headers)
    (key : string) :
  Forall (fun kv => TrimSpace kv.1 <> key) kvs ->
  foldl addHeader headers kvs !! key = headers !! key.
Proof.
  intros Hk. revert headers.
  induction Hk as [|kv kvs Hne _ IH]; intros headers; cbn; [done|].
  rewrite IH. unfold addHeader. by rewrite lookup_insert_ne.
Qed.

Lemma addHeaders_lookup_last (before after : list (string * string))
    (k v : string) (headers : Headers) :
  Forall (fun kv => TrimSpace kv.1 <> TrimSpace k) after ->
  foldl addHeader headers (before ++ (k, v) :: after) !! TrimSpace k
  = Some (TrimSpace v).
Proof.
  intros Ha. rewrite foldl_app. cbn [foldl].
  rewrite (addHeaders_lookup_ne after _ _ Ha). unfold addHeader at 1.
  cbn [fst snd]. apply lookup_insert_eq.
Qed.

Section HeaderBlock.

Variable EqualFold : string -> string -> bool.
Variable ParseMediaType : string -> string * Headers * option error.
Variable NewReader : string -> string -> PartReader.

(** No line among [kvs] declares the header [name]. *)
Definition noneDeclares (name : string) (kvs : list (string * string)) : Prop :=
  Forall (fun kv => EqualFold (TrimSpace kv.1) name = false) kvs.

(** The value of a header that exactly one line declares. *)
Lemma header_of_unique_line (order : RangeOrder)
    (before after : list (string * string)) (k v name : string) :
  valid_order order ->
  EqualFold (TrimSpace k) name = true ->
  noneDeclares name (before ++ after) ->
  getHeader EqualFold order
    (foldl addHeader ∅ (before ++ (k, v) :: after)) name
  = TrimSpace v.
Proof.
  intros Hv Hk Hnone. unfold getHeader.
  set (headers := foldl addHeader ∅ (before ++ (k, v) :: after)).
  assert (headers !! TrimSpace k = Some (TrimSpace v)) as Hmine.
  { apply addHeaders_lookup_last. apply Forall_app in Hnone as [_ Ha].
    eapply Forall_impl; [exact Ha|]. intros kv Hf Heq. cbn in Hf.
    rewrite Heq in Hf. congruence. }
  destruct (getHeader_range_spec EqualFold (order headers) name)
    as [(k' & Hin & Hk')|[_ Hall]].
  - apply (elem_of_order _ _ _ _ Hv) in Hin.
    apply addHeaders_lookup_inv in Hin as [Hin|(kv & Hin & Hkey & Hval)];
      [by rewrite lookup_empty in Hin|].
    apply elem_of_app in Hin as [Hin|[->|Hin]%elem_of_cons].
    + apply Forall_app in Hnone as [Hb _].
      rewrite Forall_forall in Hb. specialize (Hb kv Hin). cbn in Hb.
      congruence.
    + by rewrite <- Hval.
    + apply Forall_app in Hnone as [_ Ha].
      rewrite Forall_forall in Ha. specialize (Ha kv Hin). cbn in Ha.
      congruence.
  - apply (elem_of_order _ _ _ _ Hv) in Hmine. apply Hall in Hmine.
    congruence.
Qed.

(** A header value is empty or the trimmed value of a line that declares
    the header. *)
Lemma header_from_a_line (order : RangeOrder) (kvs : list (string * string))
    (name : string) :
  valid_order order ->
  getHeader EqualFold order (foldl addHeader ∅ kvs) name = ""
  \/ exists kv, kv ∈ kvs /\ EqualFold (TrimSpace kv.1) name = true
       /\ getHeader EqualFold order (foldl addHeader ∅ kvs) name
          = TrimSpace kv.2.
Proof.
  intros Hv. unfold getHeader.
  destruct (getHeader_range_spec EqualFold (order (foldl addHeader ∅ kvs))
              name) as [(k' & Hin & Hk')|[Hnone _]]; [|by left].
  right. apply (elem_of_order _ _ _ _ Hv) in Hin.
  apply addHeaders_lookup_inv in Hin as [Hin|(kv & Hin & Hkey & Hval)];
    [by rewrite lookup_empty in Hin|].
  exists kv. rewrite Hkey. by split.
Qed.

(** A Content-Type value that makes the body a plain one: the media type
    is not multipart, and the value is well-formed or empty. *)
Definition plainType (contentType : string) : Prop :=
  HasPrefix (ParseMediaType contentType).1.1 "multipart/" = false
  /\ ((ParseMediaType contentType).2 = None \/ contentType = "").

Definition plainBody (kvs : list (string * string)) : Prop :=
  plainType ""
  /\ Forall (fun kv => EqualFold (TrimSpace kv.1) "Content-Type" = true ->
                       plainType (TrimSpace kv.2)) kvs.

(** The parser on a message with one Subject line and a plain body. *)
Lemma parse_plain (order : nat -> RangeOrder) (hdr body : string)
    (before after : list (string * string)) (key value : string) :
  (forall i, valid_order (order i)) ->
  Index (hdr +:+ separator +:+ body) separator = Some (String.length hdr) ->
  Split hdr CRLF = hline <$> (before ++ (key, value) :: after) ->
  keysWithoutColon (before ++ (key, value) :: after) ->
  EqualFold (TrimSpace key) "Subject" = true ->
  noneDeclares "Subject" (before ++ after) ->
  plainBody (before ++ (key, value) :: after) ->
  exists f t,
    parseMailData EqualFold ParseMediaType NewReader order
      (hdr +:+ separator +:+ body)
    = Ok (mkMailMessage f t (TrimSpace value) body "").
Proof.
  intros Hv Hi Hsplit Hkeys Hsubj Hnone [Hp0 Hp].
  assert (parseHeaderLines
            (Split (slice_to (String.length hdr) (hdr +:+ separator +:+ body))
               CRLF) ∅
          = Ok (foldl addHeader ∅ (before ++ (key, value) :: after))) as Hh.
  { rewrite slice_to_app, Hsplit. by apply parseHeaderLines_hlines. }
  rewrite (parse_headers _ _ _ order _ _ _ Hi Hh). cbn zeta.
  rewrite slice_from_add, slice_from_app.
  change (slice_from 4 (separator +:+ body)) with body.
  unfold headerMessage.
  rewrite (header_of_unique_line (order 2%nat) before after key value
             "Subject" (Hv 2%nat) Hsubj Hnone).
  assert (plainType (contentTypeOf EqualFold order
                       (foldl addHeader ∅ (before ++ (key, value) :: after))))
    as [Hmt Herr].
  { unfold contentTypeOf.
    destruct (header_from_a_line (order 3%nat)
                (before ++ (key, value) :: after) "Content-Type" (Hv 3%nat))
      as [->|(kv & Hin & Hk & ->)]; [done|].
    rewrite Forall_forall in Hp. by apply Hp. }
  unfold fillBody. rewrite Hmt.
  destruct Herr as [->| ->]; [by eauto|].
  destruct (ParseMediaType "").2; by eauto.
Qed.

End HeaderBlock.

(* ===================================================================== *)
(** ** The command loop ends                                             *)
(* ===================================================================== *)

Lemma rx_WriteString (c : Conn) (msg : string) :
  rx (WriteString c msg).1 = rx c.
Proof. unfold WriteString. by destruct (werr c). Qed.

Lemma rx_Flush (c : Conn) : rx (Flush c).1 = rx c.
Proof.
  unfold Flush. destruct (werr c); [done|].
  destruct (String.eqb (wbuf c) ""); [done|]. by destruct (wquota c) as [[|n]|].
Qed.

Lemma rx_handleEHLO (c : Conn) : rx (handleEHLO c) = rx c.
Proof.
  unfold handleEHLO. cbn [foldl]. by rewrite rx_Flush, !rx_WriteString.
Qed.

(** A round that goes on leaves less than [n] bytes to read. *)
Definition shorter (n : nat) (o : Outcome) : Prop :=
  match o with
  | Continue s => (String.length (rx (conn s)) < n)%nat
  | Return _ _ => True
  end.

Lemma shorter_writeOrReturn (n : nat) (s : Session) (msg wrap : string)
    (k : Session -> Outcome) :
  (forall c, rx c = rx (conn s) -> shorter n (k (set_conn s c))) ->
  shorter n (writeOrReturn s msg wrap k).
Proof.
  intros Hk. unfold writeOrReturn.
  pose proof (rx_WriteString (conn s) msg) as Hrx.
  destruct (WriteString (conn s) msg) as [c [e|]]; [done|]. by apply Hk.
Qed.

Lemma shorter_flushOrReturn (n : nat) (s : Session) (k : Session -> Outcome) :
  (forall c, rx c = rx (conn s) -> shorter n (k (set_conn s c))) ->
  shorter n (flushOrReturn s k).
Proof.
  intros Hk. unfold flushOrReturn. pose proof (rx_Flush (conn s)) as Hrx.
  destruct (Flush (conn s)) as [c [e|]]; [done|]. by apply Hk.
Qed.

Lemma shorter_reply (n : nat) (s : Session) (msg wrap : string)
    (k : Session -> Outcome) :
  (String.length (rx (conn s)) < n)%nat ->
  (k = Continue \/ k = returnNil) ->
  shorter n (writeOrReturn s msg wrap (fun s => flushOrReturn s k)).
Proof.
  intros Hn Hk. apply shorter_writeOrReturn. intros c Hc.
  apply shorter_flushOrReturn. intros c' Hc'. cbn in Hc'.
  destruct Hk as [-> | ->]; cbn; [|done]. by rewrite Hc', Hc.
Qed.

Lemma shorter_reply_ignore (n : nat) (s : Session) (msg : string)
    (k : Session -> Outcome) :
  (String.length (rx (conn s)) < n)%nat ->
  (k = Continue \/ k = returnNil) ->
  shorter n (flushOrReturn (writeIgnore s msg) k).
Proof.
  intros Hn Hk. apply shorter_flushOrReturn. intros c Hc. cbn in Hc.
  rewrite rx_WriteString in Hc.
  destruct Hk as [-> | ->]; cbn; [|done]. by rewrite Hc.
Qed.

Section Termination.

Variable EqualFold : string -> string -> bool.
Variable ParseMediaType : string -> string * Headers * option error.
Variable NewReader : string -> string -> PartReader.
Variable callBackFn : nat -> MailMessage -> option error.
Variable order : nat -> nat -> RangeOrder.

Local Abbreviation iteration :=
  (iteration EqualFold ParseMediaType NewReader callBackFn order).
Local Abbreviation handleData :=
  (handleData EqualFold ParseMediaType NewReader callBackFn order).
Local Abbreviation commandLoop :=
  (commandLoop EqualFold ParseMediaType NewReader callBackFn order).

Lemma handleData_shorter (n : nat) (s : Session) :
  (String.length (rx (conn s)) < n)%nat -> shorter n (handleData s).
Proof.
  intros Hn. unfold handleData.
  pose proof (collectLoop_rest (String.length (rx (conn s))) (rx (conn s)) "")
    as Hrest. fold (collectMailData (rx (conn s))) in Hrest.
  destruct (collectMailData (rx (conn s))) as [mailData rest].
  cbn [snd] in Hrest.
  destruct (String.eqb mailData "");
    [apply shorter_reply; cbn; [lia | auto]|].
  destruct (parseMailData _ _ _ _ mailData) as [msg|err];
    [|apply shorter_reply; cbn; [lia | auto]].
  destruct (callBackFn _ _); apply shorter_reply_ignore; cbn; auto; lia.
Qed.

Lemma iteration_shorter (s : Session) :
  shorter (String.length (rx (conn s))) (iteration s).
Proof.
  unfold iteration.
  destruct (ReadString (rx (conn s))) as [[raw rest]|] eqn:Hr; [|done].
  apply ReadString_shorter in Hr.
  destruct (commandKind (TrimSpace raw)).
  - cbn. by rewrite rx_handleEHLO.
  - destruct (parseAddress _) as [a [e|]]; by apply shorter_reply; auto.
  - destruct (parseAddress _) as [a [e|]];
      [by apply shorter_reply; auto | by apply shorter_reply_ignore; auto].
  - apply shorter_writeOrReturn. intros c Hc.
    apply shorter_flushOrReturn. intros c' Hc'. cbn in Hc, Hc'.
    apply handleData_shorter. cbn. by rewrite Hc', Hc.
  - by apply shorter_reply; auto.
  - by apply shorter_reply_ignore; auto.
  - done.
  - by apply shorter_reply_ignore; auto.
Qed.

(** With more rounds than bytes to read, the loop returns. *)
Lemma commandLoop_returns (rounds : nat) (s : Session) :
  (String.length (rx (conn s)) < rounds)%nat ->
  is_Some (commandLoop rounds s).
Proof.
  revert s. induction rounds as [|rounds IH]; intros s Hn; [lia|].
  cbn. pose proof (iteration_shorter s) as Hs.
  destruct (iteration s) as [s'|s' e]; [|done].
  apply IH. cbn in Hs. lia.
Qed.

(** The history of a session grows only. *)
Lemma handleData_history (s : Session) :
  after (fun s' => history s `prefix_of` history s') (handleData s).
Proof.
  unfold handleData.
  destruct (collectMailData (rx (conn s))) as [mailData rest].
  destruct (String.eqb mailData ""); [by apply after_reply; auto|].
  destruct (parseMailData _ _ _ _ mailData) as [msg|err];
    [|by apply after_reply; auto].
  destruct (callBackFn _ _); apply after_reply_ignore; auto;
    intros c; cbn; by apply prefix_app_r.
Qed.

Lemma iteration_history (s : Session) :
  after (fun s' => history s `prefix_of` history s') (iteration s).
Proof.
  unfold iteration.
  destruct (ReadString (rx (conn s))) as [[raw rest]|]; [|by cbn].
  assert (history s `prefix_of` history s ++ [EvCommand (TrimSpace raw)])
    as Hp by (by apply prefix_app_r).
  destruct (commandKind (TrimSpace raw)); try exact Hp.
  - destruct (parseAddress _) as [a [e|]]; by apply after_reply; auto.
  - destruct (parseAddress _) as [a [e|]];
      [by apply after_reply; auto | by apply after_reply_ignore; auto].
  - apply after_writeOrReturn; [done|]. intros c.
    apply after_flushOrReturn; [done|]. intros c'.
    pose proof (handleData_history
                  (set_conn (set_conn (record (set_conn s
                     (set_rx (conn s) rest)) (EvCommand (TrimSpace raw))) c) c'))
      as Hd.
    destruct (handleData _); cbn in *; by etrans.
  - by apply after_reply; auto.
  - by apply after_reply_ignore; auto.
  - by apply after_reply_ignore; auto.
Qed.

Lemma commandLoop_history (rounds : nat) (s s' : Session)
    (err : option error) :
  commandLoop rounds s = Some (s', err) -> history s `prefix_of` history s'.
Proof.
  revert s. induction rounds as [|rounds IH]; intros s; [done|].
  cbn. pose proof (iteration_history s) as Hi.
  destruct (iteration s) as [s1|s1 e]; cbn in Hi.
  - intros H%IH. by etrans.
  - by intros [= <- _].
Qed.

End Termination.

(* ===================================================================== *)
(** ** A transaction with a plain message                                *)
(* ===================================================================== *)

Definition greeting : string := "220 Welcome to the SMTP server" +:+ CRLF.

(** The session at the head of the loop, the greeting being sent. *)
Definition greeted (c : Conn) : Session :=
  mkSession (sent c greeting) "" "" [].

(** The commands that neither touch the envelope nor end the session. *)
Definition idleKind (k : Command) : bool :=
  match k with
  | EHLO | NOOP | DOT | OTHER => true
  | MAIL_FROM | RCPT_TO | DATA | QUIT => false
  end.

Definition idle (l : string) : Prop :=
  isLine l = true /\ idleKind (commandKind (TrimSpace l)) = true.

Lemma handleEHLO_healthy (c : Conn) :
  healthy c ->
  handleEHLO c
  = sent c ("250-Hello" +:+ CRLF +:+ "250-SIZE 10240000" +:+ CRLF +:+ OK).
Proof.
  destruct c as [? ? ? b e q ? ? ?]. intros (He & Hb & Hq). cbn in He, Hb, Hq.
  by subst.
Qed.

Lemma dispatched_app (h1 h2 : list Event) :
  dispatched (h1 ++ h2) = dispatched h1 ++ dispatched h2.
Proof. apply omap_app. Qed.

Section Transaction.

Variable EqualFold : string -> string -> bool.
Variable ParseMediaType : string -> string * Headers * option error.
Variable NewReader : string -> string -> PartReader.
Variable callBackFn : nat -> MailMessage -> option error.
Variable order : nat -> nat -> RangeOrder.

Local Abbreviation parse :=
  (parseMailData EqualFold ParseMediaType NewReader).
Local Abbreviation iteration :=
  (iteration EqualFold ParseMediaType NewReader callBackFn order).
Local Abbreviation handleData :=
  (handleData EqualFold ParseMediaType NewReader callBackFn order).
Local Abbreviation commandLoop :=
  (commandLoop EqualFold ParseMediaType NewReader callBackFn order).
Local Abbreviation handleConnection :=
  (handleConnection EqualFold ParseMediaType NewReader callBackFn order).

(** The session [s'] is at the head of the round after that of [s]. *)
Definition goesOn (s s' : Session) : Prop := iteration s = Continue s'.

(** What a run of rounds keeps: the health of the connection, and the
    messages dispatched so far. *)
Definition carriedOn (s s' : Session) (rest : string) : Prop :=
  rtc goesOn s s' /\ healthy (conn s') /\ rx (conn s') = rest
  /\ dispatched (history s') = dispatched (history s).

Lemma idle_round (s : Session) (l rest : string) :
  healthy (conn s) -> rx (conn s) = l +:+ rest -> idle l ->
  exists s', carriedOn s s' rest /\ from s' = from s /\ to s' = to s.
Proof.
  intros Hh Hrx [Hl Hk].
  assert (ReadString (rx (conn s)) = Some (l, rest)) as Hread
    by (rewrite Hrx; by apply ReadString_line).
  assert (forall s', iteration s = Continue s' -> healthy (conn s') ->
            rx (conn s') = rest ->
            history s' = history s ++ [EvCommand (TrimSpace l)] ->
            carriedOn s s' rest) as Hdone.
  { intros s' Hi Hh' Hrx' Hhist. split; [by apply rtc_once|].
    split; [done|]. split; [done|].
    rewrite Hhist, dispatched_app. cbn. by rewrite app_nil_r. }
  destruct (commandKind (TrimSpace l)) eqn:Hkind; try done.
  - assert (iteration s
            = Continue (set_conn (commanded s l rest)
                          (handleEHLO (set_rx (conn s) rest)))) as Hi
      by (unfold iteration; by rewrite Hread, Hkind).
    rewrite handleEHLO_healthy in Hi by done.
    eexists. split; [by apply (Hdone _ Hi)|done].
  - pose proof (round_noop EqualFold ParseMediaType NewReader callBackFn order
                  s l rest Hh Hread Hkind) as Hi.
    eexists. split; [by apply (Hdone _ Hi)|done].
  - pose proof (round_dot EqualFold ParseMediaType NewReader callBackFn order
                  s l rest Hread Hkind) as Hi.
    eexists. split; [by apply (Hdone _ Hi)|done].
  - pose proof (round_other EqualFold ParseMediaType NewReader callBackFn
                  order s l rest Hh Hread Hkind) as Hi.
    eexists. split; [by apply (Hdone _ Hi)|done].
Qed.

Lemma carriedOn_trans (s1 s2 s3 : Session) (r2 r3 : string) :
  carriedOn s1 s2 r2 -> carriedOn s2 s3 r3 -> carriedOn s1 s3 r3.
Proof.
  intros (H1 & _ & _ & Hd1) (H2 & Hh & Hr & Hd2).
  split; [by etrans|]. split; [done|]. split; [done|]. congruence.
Qed.

Lemma carriedOn_refl (s : Session) :
  healthy (conn s) -> carriedOn s s (rx (conn s)).
Proof. by intros Hh. Qed.

Lemma idle_rounds (ls : list string) (s : Session) (rest : string) :
  healthy (conn s) -> rx (conn s) = joined ls +:+ rest -> Forall idle ls ->
  exists s', carriedOn s s' rest /\ from s' = from s /\ to s' = to s.
Proof.
  intros Hh Hrx Hidle. revert s Hh Hrx.
  induction Hidle as [|l ls Hl _ IH]; intros s Hh Hrx.
  - exists s. cbn in Hrx. rewrite <- Hrx. split; [by apply carriedOn_refl|done].
  - change (joined (l :: ls)) with (l +:+ joined ls) in Hrx.
    rewrite app_assoc' in Hrx.
    destruct (idle_round s l _ Hh Hrx Hl) as (s1 & Hc1 & Hf1 & Ht1).
    destruct (IH s1) as (s2 & Hc2 & Hf2 & Ht2); [apply Hc1..|].
    exists s2. split; [by eapply carriedOn_trans|]. split; congruence.
Qed.

Lemma mail_from_round (s : Session) (l rest address : string) :
  healthy (conn s) -> rx (conn s) = l +:+ rest -> isLine l = true ->
  commandKind (TrimSpace l) = MAIL_FROM ->
  parseAddress (TrimSpace l) = (address, None) ->
  exists s', carriedOn s s' rest /\ from s' = address /\ to s' = to s.
Proof.
  intros Hh Hrx Hl Hk Ha.
  assert (ReadString (rx (conn s)) = Some (l, rest)) as Hread
    by (rewrite Hrx; by apply ReadString_line).
  pose proof (round_mail_from EqualFold ParseMediaType NewReader callBackFn
                order s l rest Hh Hread address Hk Ha) as Hi.
  exists (replied (set_from (commanded s l rest) address) OK).
  split; [|done]. split; [by apply rtc_once|].
  split; [done|]. split; [done|]. cbn. rewrite dispatched_app. cbn.
  by rewrite app_nil_r.
Qed.

Lemma rcpt_to_round (s : Session) (l rest address : string) :
  healthy (conn s) -> rx (conn s) = l +:+ rest -> isLine l = true ->
  commandKind (TrimSpace l) = RCPT_TO ->
  parseAddress (TrimSpace l) = (address, None) ->
  exists s', carriedOn s s' rest /\ from s' = from s /\ to s' = address.
Proof.
  intros Hh Hrx Hl Hk Ha.
  assert (ReadString (rx (conn s)) = Some (l, rest)) as Hread
    by (rewrite Hrx; by apply ReadString_line).
  pose proof (round_rcpt_to EqualFold ParseMediaType NewReader callBackFn
                order s l rest Hh Hread address Hk Ha) as Hi.
  exists (replied (set_to (commanded s l rest) address) OK).
  split; [|done]. split; [by apply rtc_once|].
  split; [done|]. split; [done|]. cbn. rewrite dispatched_app. cbn.
  by rewrite app_nil_r.
Qed.

(** The DATA round of a message that the parser accepts. *)
Lemma data_round_dispatches (s : Session) (l rest mailData rest' : string)
    (subject plain html : string) :
  healthy (conn s) -> rx (conn s) = l +:+ rest -> isLine l = true ->
  commandKind (TrimSpace l) = DATA ->
  collectMailData rest = (mailData, rest') ->
  mailData <> "" ->
  (forall o, (forall i, valid_order (o i)) ->
     exists f t, parse o mailData = Ok (mkMailMessage f t subject plain html)) ->
  (forall n i, valid_order (order n i)) ->
  after (fun s' => dispatched (history s')
                   = dispatched (history s)
                     ++ [mkMailMessage (from s) (to s) subject plain html])
    (iteration s).
Proof.
  intros Hh Hrx Hl Hk Hc Hne Hp Hv.
  assert (ReadString (rx (conn s)) = Some (l, rest)) as Hread
    by (rewrite Hrx; by apply ReadString_line).
  rewrite (round_data EqualFold ParseMediaType NewReader callBackFn order
             s l rest Hh Hread Hk).
  assert (forall msg, rx (conn (replied (commanded s l rest) msg)) = rest)
    as Hrx' by reflexivity.
  unfold handleData. rewrite Hrx', Hc.
  destruct (String.eqb_spec mailData ""); [done|].
  destruct (Hp (order (length (history (set_conn
              (replied (commanded s l rest)
                 ("354 Start mail input; end with <CRLF>.<CRLF>" +:+ CRLF))
              (set_rx (conn (replied (commanded s l rest)
                 ("354 Start mail input; end with <CRLF>.<CRLF>" +:+ CRLF)))
                 rest'))))) (Hv _)) as (f & t & ->).
  match goal with
  | |- context [callBackFn ?n ?m] =>
      change m with (withEnvelope (commanded s l rest)
                       (mkMailMessage f t subject plain html))
  end.
  rewrite withEnvelope_eq. cbn [from to commanded record set_conn Subject
                                PlainText HTMLText].
  destruct (callBackFn _ _); apply after_reply_ignore; auto; intros c; cbn;
    rewrite !dispatched_app; cbn; by rewrite app_nil_r.
Qed.

Lemma commandLoop_after_rounds (s s' : Session) (rounds : nat)
    (r : Session * option error) :
  rtc goesOn s s' -> commandLoop rounds s = Some r ->
  exists m, commandLoop m s' = Some r.
Proof.
  intros Hrun. revert rounds.
  induction Hrun as [s|s s1 s' Hstep _ IH]; intros rounds Hl; [by eauto|].
  destruct rounds as [|rounds]; [done|]. cbn in Hl.
  unfold goesOn in Hstep. rewrite Hstep in Hl. by eapply IH.
Qed.

(** The first message that a session hands to the callback. *)
Lemma first_dispatch (c : Conn) (s' : Session) (msg : MailMessage) :
  healthy c -> deadlineErr c = None ->
  rtc goesOn (greeted c) s' ->
  dispatched (history s') = [] ->
  after (fun sf => dispatched (history sf) = [] ++ [msg]) (iteration s') ->
  dispatched (history (handleConnection c).1) !! 0%nat = Some msg.
Proof.
  intros Hh Hd Hrun Hnone Hdata. unfold handleConnection.
  rewrite Hd, (WriteString_healthy _ _ Hh), Flush_written by done.
  fold greeting. change (set_conn _ (sent c greeting)) with (greeted c).
  destruct (commandLoop_returns EqualFold ParseMediaType NewReader callBackFn
              order (S (String.length (rx (sent c greeting)))) (greeted c))
    as [[sf e] Hl]; [cbn; lia|].
  rewrite Hl.
  change (dispatched (history sf) !! 0%nat = Some msg).
  destruct (commandLoop_after_rounds _ _ _ _ Hrun Hl) as [[|m] Hm]; [done|].
  cbn in Hm. destruct (iteration s') as [s1|s1 e1]; cbn in Hdata.
  - apply commandLoop_history in Hm as [k Hk]. rewrite Hk, dispatched_app.
    by rewrite Hdata.
  - injection Hm as <- <-. by rewrite Hdata.
Qed.

(** A line that sets one address of the envelope. *)
Definition envelopeLine (kind : Command) (l address : string) : Prop :=
  isLine l = true /\ commandKind (TrimSpace l) = kind
  /\ parseAddress (TrimSpace l) = (address, None).

(** The lines of a message and its end marker, as [collectMailData] reads
    them, with the raw text they give. *)
Definition dataLines (ds : list string) (endLine raw : string) : Prop :=
  Forall (fun d => isLine d = true) ds
  /\ Forall (fun d => TrimSpace d <> ".") ds
  /\ isLine endLine = true /\ TrimSpace endLine = "."
  /\ TrimSpace (joined ds) = raw.

(** A raw text that consists of a header block, whose lines are those of
    [above], the Subject line and [below], of the blank line, which is
    the first one of the text, and of a plain body. *)
Definition plainMessage (raw body : string)
    (above : list (string * string)) (key value : string)
    (below : list (string * string)) : Prop :=
  exists hdr : string,
    raw = hdr +:+ separator +:+ body
    /\ Index raw separator = Some (String.length hdr)
    /\ Split hdr CRLF = hline <$> (above ++ (key, value) :: below)
    /\ keysWithoutColon (above ++ (key, value) :: below)
    /\ EqualFold (TrimSpace key) "Subject" = true
    /\ noneDeclares EqualFold "Subject" (above ++ below)
    /\ plainBody EqualFold ParseMediaType (above ++ (key, value) :: below).

(** C1: in a session on a healthy connection in which the client declares
    the sender with MAIL FROM and the recipient with RCPT TO, idle commands
    aside, and then completes DATA with a message that has a header block
    with one Subject line and a plain body, the message handed to the
    callback has the envelope addresses as [From] and [To], the value of
    the Subject line as [Subject], the body as [PlainText] and an empty
    [HTMLText]. *)
Theorem plain_message_reaches_callback
    (c : Conn) (pre mid1 mid2 ds : list string)
    (mailLine rcptLine dataLine endLine rest : string)
    (sender recipient raw body key value : string)
    (above below : list (string * string)) :
  healthy c -> deadlineErr c = None ->
  (forall n i, valid_order (order n i)) ->
  rx c = joined pre +:+ mailLine +:+ joined mid1 +:+ rcptLine
         +:+ joined mid2 +:+ dataLine +:+ joined ds +:+ endLine +:+ rest ->
  Forall idle pre -> Forall idle mid1 -> Forall idle mid2 ->
  envelopeLine MAIL_FROM mailLine sender ->
  envelopeLine RCPT_TO rcptLine recipient ->
  isLine dataLine = true -> commandKind (TrimSpace dataLine) = DATA ->
  dataLines ds endLine raw ->
  plainMessage raw body above key value below ->
  dispatched (history (handleConnection c).1) !! 0%nat
  = Some (mkMailMessage sender recipient (TrimSpace value) body "").
Proof.
  intros Hh Hd Hv Hrx Hpre Hmid1 Hmid2 (Hml & Hmk & Hma) (Hrl & Hrk & Hra)
    Hdl Hdk (Hds & Hdots & Hel & Hedot & Hraw)
    (hdr & Hmsg & Hi & Hsplit & Hkeys & Hsubj & Hnone & Hplain).
  assert (healthy (conn (greeted c))) as Hh0 by done.
  assert (rx (conn (greeted c)) = rx c) as Hrx0 by done.
  rewrite Hrx in Hrx0.
  destruct (idle_rounds pre _ _ Hh0 Hrx0 Hpre)
    as (s1 & (Hrun1 & Hh1 & Hrx1 & Hd1) & _ & _).
  destruct (mail_from_round s1 _ _ sender Hh1 Hrx1 Hml Hmk Hma)
    as (s2 & (Hrun2 & Hh2 & Hrx2 & Hd2) & Hf2 & _).
  destruct (idle_rounds mid1 _ _ Hh2 Hrx2 Hmid1)
    as (s3 & (Hrun3 & Hh3 & Hrx3 & Hd3) & Hf3 & _).
  destruct (rcpt_to_round s3 _ _ recipient Hh3 Hrx3 Hrl Hrk Hra)
    as (s4 & (Hrun4 & Hh4 & Hrx4 & Hd4) & Hf4 & Ht4).
  destruct (idle_rounds mid2 _ _ Hh4 Hrx4 Hmid2)
    as (s5 & (Hrun5 & Hh5 & Hrx5 & Hd5) & Hf5 & Ht5).
  assert (from s5 = sender) as Hfrom by congruence.
  assert (to s5 = recipient) as Hto by congruence.
  assert (dispatched (history s5) = []) as Hnodisp by (cbn in Hd1; congruence).
  assert (after (fun sf => dispatched (history sf)
                           = dispatched (history s5)
                             ++ [mkMailMessage (from s5) (to s5)
                                   (TrimSpace value) body ""])
            (iteration s5)) as Hround.
  { apply (data_round_dispatches s5 dataLine
             (joined ds +:+ endLine +:+ rest) raw rest); try done.
    - rewrite <- Hraw. by apply collectMailData_lines.
    - rewrite Hmsg. by destruct hdr.
    - intros o Ho. rewrite Hmsg. rewrite Hmsg in Hi.
      by apply (parse_plain EqualFold ParseMediaType NewReader o hdr body
                  above below key value). }
  rewrite Hnodisp, Hfrom, Hto in Hround.
  apply (first_dispatch c s5); try done.
  by repeat (etrans; [eassumption|]).
Qed.

End Transaction.

(** The session of the test of the server with a simple body: the
    commands of the client and the message, its body after a blank line. *)
Definition simpleMessage : list string :=
  [ "From: from@example.com"; "To: to@example.com";
    "Subject: test subject"; ""; "test body" ].

Definition simpleSession : string :=
  crlfLines ([ "EHLO localhost"; "MAIL FROM:<from@example.com>";
               "RCPT TO:<to@example.com>"; "DATA" ]
             ++ simpleMessage ++ [ "."; "QUIT" ]).

Lemma plain_message_reaches_callback_witness :
  dispatched (history (Ref.serve simpleSession).1) !! 0%nat
  = Some (mkMailMessage "from@example.com" "to@example.com" "test subject"
            "test body" "").
Proof.
  apply (plain_message_reaches_callback Ref.EqualFold Ref.ParseMediaType
           Ref.NewReader Ref.callBackFn Ref.order (Ref.client simpleSession)
           ["EHLO localhost" +:+ CRLF] [] []
           ((fun l => l +:+ CRLF) <$> simpleMessage)
           ("MAIL FROM:<from@example.com>" +:+ CRLF)
           ("RCPT TO:<to@example.com>" +:+ CRLF)
           ("DATA" +:+ CRLF) ("." +:+ CRLF) ("QUIT" +:+ CRLF)
           "from@example.com" "to@example.com"
           (TrimSpace (crlfLines simpleMessage)) "test body"
           "Subject" " test subject"
           [("From", " from@example.com"); ("To", " to@example.com")] []).
  - done.
  - reflexivity.
  - intros n i. apply valid_listed_order.
  - reflexivity.
  - by repeat constructor.
  - constructor.
  - constructor.
  - by repeat split.
  - by repeat split.
  - reflexivity.
  - reflexivity.
  - split; [by repeat constructor|]. split; [by repeat constructor|].
    by repeat split.
  - exists (TrimSpace (crlfLines (take 3 simpleMessage))).
    split; [reflexivity|]. split; [reflexivity|]. split; [reflexivity|].
    split; [by repeat constructor|]. split; [reflexivity|].
    split; [by repeat constructor|].
    split; [split; [reflexivity | right; reflexivity]|].
    repeat (apply Forall_cons; split; [intros H; by vm_compute in H|]).
    by apply Forall_nil.
Defined.

(* ===================================================================== *)
(** ** Further properties of the session                                 *)
(* ===================================================================== *)




(** Dispatch is by prefix and by case: a line that starts with a keyword
    is that command whatever follows the keyword, and a line whose first
    byte is none of the first letters of the keywords, and that is not the
    lone ["."], is no command at all. *)
Definition keywordInitial (c : ascii) : bool :=
  inCutset c "EMRDQN".

Theorem dispatch_by_prefix_and_case :
  (forall tail : string,
     commandKind ("EHLO" +:+ tail) = EHLO
     /\ commandKind ("MAIL FROM" +:+ tail) = MAIL_FROM
     /\ commandKind ("RCPT TO" +:+ tail) = RCPT_TO
     /\ commandKind ("DATA" +:+ tail) = DATA
     /\ commandKind ("QUIT" +:+ tail) = QUIT
     /\ commandKind ("NOOP" +:+ tail) = NOOP)
  /\ (forall (c : ascii) (tail : string),
        keywordInitial c = false ->
        commandKind (String c tail)
        = if String.eqb (String c tail) "." then DOT else OTHER).
Proof.
  split.
  - intros tail. unfold commandKind. repeat split;
      repeat (rewrite HasPrefix_app || (cbn; try reflexivity)).
  - intros c tail Hc. apply commandKind_no_keyword.
    unfold keywordInitial in Hc. cbn in Hc.
    apply orb_false_elim in Hc as [HE Hc].
    apply orb_false_elim in Hc as [HM Hc].
    apply orb_false_elim in Hc as [HR Hc].
    apply orb_false_elim in Hc as [HD Hc].
    apply orb_false_elim in Hc as [HQ Hc].
    apply orb_false_elim in Hc as [HN _].
    unfold matchesNoKeyword, keywords.
    repeat (apply Forall_cons; split;
            [cbn; by rewrite ?HE, ?HM, ?HR, ?HD, ?HQ, ?HN|]).
    by apply Forall_nil.
Qed.

(** [collectMailData] keeps the lines of a message as they are: its result
    is the text of all lines before the first line that is the end marker
    up to white space, trimmed as a whole; no leading dot is removed from
    a line, and the reader stays right after the marker. *)
Theorem collectMailData_verbatim (ds : list string) (endLine rest : string) :
  Forall (fun d => isLine d = true) ds ->
  Forall (fun d => TrimSpace d <> ".") ds ->
  isLine endLine = true -> TrimSpace endLine = "." ->
  collectMailData (joined ds +:+ endLine +:+ rest)
  = (TrimSpace (joined ds), rest).
Proof. apply collectMailData_lines. Qed.

Lemma collectMailData_verbatim_witness :
  collectMailData
    (joined ["..dotted" +:+ CRLF; "second" +:+ CRLF] +:+ (" . " +:+ CRLF)
     +:+ "NOOP" +:+ CRLF)
  = (TrimSpace (joined ["..dotted" +:+ CRLF; "second" +:+ CRLF]),
     "NOOP" +:+ CRLF).
Proof.
  apply (collectMailData_verbatim ["..dotted" +:+ CRLF; "second" +:+ CRLF]
           (" . " +:+ CRLF) ("NOOP" +:+ CRLF)).
  - by repeat constructor.
  - by repeat constructor.
  - reflexivity.
  - reflexivity.
Defined.

(** Input that ends before an end marker. *)
Lemma collectLoop_unterminated (ds : list string) (tail acc : string)
    (rounds : nat) :
  Forall (fun d => isLine d = true) ds ->
  Forall (fun d => TrimSpace d <> ".") ds ->
  ReadString tail = None ->
  (length ds < rounds)%nat \/ (length ds = rounds /\ tail = "") ->
  collectLoop rounds (joined ds +:+ tail) acc = ("", "").
Proof.
  intros Hl Hd Htail. revert acc rounds.
  induction ds as [|d ds IH]; intros acc rounds Hr.
  - cbn [joined foldr]. destruct rounds as [|rounds].
    + destruct Hr as [Hr|[_ ->]]; [cbn in Hr; lia | done].
    + cbn. change ("" +:+ tail) with tail. by rewrite Htail.
  - apply Forall_cons in Hl as [Hl1 Hl], Hd as [Hd1 Hd].
    destruct rounds as [|rounds]; [cbn in Hr; lia|].
    change (joined (d :: ds)) with (d +:+ joined ds). cbn [collectLoop].
    rewrite app_assoc', (ReadString_line d _ Hl1).
    destruct (String.eqb_spec (TrimSpace d) "."); [done|].
    apply (IH Hl Hd). cbn in Hr.
    destruct Hr as [Hr|[Hr Ht]]; [left; lia | right; split; [lia | done]].
Qed.

Section SessionEdges.

Variable EqualFold : string -> string -> bool.
Variable ParseMediaType : string -> string * Headers * option error.
Variable NewReader : string -> string -> PartReader.
Variable callBackFn : nat -> MailMessage -> option error.
Variable order : nat -> nat -> RangeOrder.

Local Abbreviation iteration :=
  (iteration EqualFold ParseMediaType NewReader callBackFn order).
Local Abbreviation handleData :=
  (handleData EqualFold ParseMediaType NewReader callBackFn order).
Local Abbreviation commandLoop :=
  (commandLoop EqualFold ParseMediaType NewReader callBackFn order).

(** A MAIL FROM or RCPT TO line without colon is answered with the
    permanent rejection, whose text names RCPT TO for both commands, and
    ends the session; no later line is read. *)
Theorem address_without_colon_ends_session (s : Session) (raw rest : string) :
  healthy (conn s) ->
  ReadString (rx (conn s)) = Some (raw, rest) ->
  commandKind (TrimSpace raw) = MAIL_FROM
  \/ commandKind (TrimSpace raw) = RCPT_TO ->
  Index (TrimSpace raw) ":" = None ->
  exists s',
    iteration s = Return s' None
    /\ (forall n, commandLoop (S n) s = Some (s', None))
    /\ rx (conn s') = rest
    /\ history s' = history s ++ [EvCommand (TrimSpace raw)]
    /\ tx (conn s')
       = tx (conn s) ++ ["550 Error: invalid RCPT TO syntax" +:+ CRLF].
Proof.
  intros Hh Hread Hk Hcolon.
  assert (parseAddress (TrimSpace raw) = ("", Some "invalid RCPT TO syntax"))
    as Ha by (by rewrite parseAddress_eq, Hcolon).
  assert (exists s', iteration s = Return s' None
            /\ rx (conn s') = rest
            /\ history s' = history s ++ [EvCommand (TrimSpace raw)]
            /\ tx (conn s')
               = tx (conn s) ++ ["550 Error: invalid RCPT TO syntax" +:+ CRLF])
    as (s' & Hi & H).
  { destruct Hk as [Hk|Hk]; unfold iteration; rewrite Hread, Hk, Ha;
      (rewrite writeOrReturn_flush_healthy; [|done|done]); by eexists. }
  exists s'. split; [done|]. split; [|done]. intros n. cbn. by rewrite Hi.
Qed.

(** A DATA command that no message follows: when the input ends before an
    end marker, or the text before the marker is empty or white space,
    [collectMailData] returns the empty string, and the session answers
    ["550 Error reading mail data"] and ends. *)
Theorem data_without_message_ends_session :
  (forall (ds : list string) (tail : string),
     Forall (fun d => isLine d = true) ds ->
     Forall (fun d => TrimSpace d <> ".") ds ->
     ReadString tail = None ->
     collectMailData (joined ds +:+ tail) = ("", ""))
  /\ (forall (ds : list string) (endLine rest : string),
        Forall (fun d => isLine d = true) ds ->
        Forall (fun d => TrimSpace d <> ".") ds ->
        isLine endLine = true -> TrimSpace endLine = "." ->
        TrimSpace (joined ds) = "" ->
        collectMailData (joined ds +:+ endLine +:+ rest) = ("", rest))
  /\ (forall (s : Session) (raw rest rest' : string),
        healthy (conn s) ->
        ReadString (rx (conn s)) = Some (raw, rest) ->
        commandKind (TrimSpace raw) = DATA ->
        collectMailData rest = ("", rest') ->
        exists s',
          iteration s = Return s' None
          /\ dispatched (history s') = dispatched (history s)
          /\ tx (conn s')
             = tx (conn s)
               ++ [startMailInput; "550 Error reading mail data" +:+ CRLF]).
Proof.
  split; [|split].
  - intros ds tail Hl Hd Htail. unfold collectMailData.
    apply collectLoop_unterminated; try done.
    rewrite length_app'. apply joined_length in Hl.
    destruct tail as [|c tail]; cbn [String.length].
    + destruct (decide (length ds = String.length (joined ds))) as [He|Hne];
        [right; split; [lia | done] | left; lia].
    + left. lia.
  - intros ds endLine rest Hl Hd Hel Hdot Hempty.
    by rewrite collectMailData_lines, Hempty.
  - intros s raw rest rest' Hh Hread Hk Hc.
    rewrite (round_data EqualFold ParseMediaType NewReader callBackFn order
               s raw rest Hh Hread Hk).
    assert (forall msg, rx (conn (replied (commanded s raw rest) msg)) = rest)
      as Hrx by reflexivity.
    unfold handleData. rewrite Hrx, Hc. cbn [String.eqb].
    rewrite writeOrReturn_flush_healthy; [|done|done].
    eexists. split; [done|]. cbn. rewrite dispatched_app, <- app_assoc. cbn.
    by rewrite app_nil_r.
Qed.

(** A round that does not read MAIL FROM leaves the sender as it is, and
    one that does not read RCPT TO the recipient: a completed DATA
    transaction does not reset the envelope, so that a later DATA in the
    same session is sent with the old envelope again. *)
Theorem envelope_survives_other_commands (s : Session) (raw rest : string) :
  ReadString (rx (conn s)) = Some (raw, rest) ->
  (commandKind (TrimSpace raw) <> MAIL_FROM ->
   after (fun s' => from s' = from s) (iteration s))
  /\ (commandKind (TrimSpace raw) <> RCPT_TO ->
      after (fun s' => to s' = to s) (iteration s)).
Proof.
  intros Hread.
  assert (forall P : Session -> Prop,
            (forall s1 c, P s1 -> P (set_conn s1 c)) ->
            (forall s1 e, P s1 -> P (record s1 e)) ->
            forall s1, P s1 -> after P (handleData s1)) as Hdata.
  { intros P Hc Hr s1 H1. unfold handleData.
    destruct (collectMailData (rx (conn s1))) as [mailData rest1].
    destruct (String.eqb mailData "");
      [apply after_reply; [intros c; by do 2 apply Hc | auto]|].
    destruct (parseMailData _ _ _ _ mailData) as [msg|err];
      [|apply after_reply; [intros c; by do 2 apply Hc | auto]].
    destruct (callBackFn _ _); (apply after_reply_ignore; [|auto]);
      intros c; apply Hc; apply Hr; by apply Hc. }
  assert (forall P : Session -> Prop,
            (forall s1 c, P s1 -> P (set_conn s1 c)) ->
            (forall s1 e, P s1 -> P (record s1 e)) ->
            (commandKind (TrimSpace raw) = MAIL_FROM ->
             forall s1 a, P s1 -> P (set_from s1 a)) ->
            (commandKind (TrimSpace raw) = RCPT_TO ->
             forall s1 a, P s1 -> P (set_to s1 a)) ->
            P s -> after P (iteration s)) as Hround.
  { intros P Hc Hr Hm Ht Hs. unfold iteration. rewrite Hread.
    assert (P (record (set_conn s (set_rx (conn s) rest))
                 (EvCommand (TrimSpace raw)))) as H1 by (by apply Hr, Hc).
    destruct (commandKind (TrimSpace raw)) eqn:Hk.
    - by apply Hc.
    - specialize (Hm eq_refl).
      destruct (parseAddress (TrimSpace raw)) as [a [e|]];
        (apply after_reply; [intros c; by apply Hc, Hm | auto]).
    - specialize (Ht eq_refl).
      destruct (parseAddress (TrimSpace raw)) as [a [e|]];
        [apply after_reply | apply after_reply_ignore];
        (try by auto); intros c; by apply Hc, Ht.
    - apply after_writeOrReturn; [intros c; by apply Hc|]. intros c.
      apply after_flushOrReturn; [intros c'; by do 2 apply Hc|]. intros c'.
      apply Hdata; try done. by do 2 apply Hc.
    - apply after_reply; [intros c; by apply Hc | auto].
    - apply after_reply_ignore; [intros c; by apply Hc | auto].
    - done.
    - apply after_reply_ignore; [intros c; by apply Hc | auto]. }
  split; intros Hk; apply Hround; try done.
Qed.

End SessionEdges.

Lemma address_without_colon_ends_session_witness :
  exists s',
    iteration Ref.EqualFold Ref.ParseMediaType Ref.NewReader Ref.callBackFn
      Ref.order
      (sessionAt (crlfLines ["MAIL FROM <a@example.com>"; "NOOP"]) "" "")
    = Return s' None
    /\ (forall n,
          commandLoop Ref.EqualFold Ref.ParseMediaType Ref.NewReader
            Ref.callBackFn Ref.order (S n)
            (sessionAt (crlfLines ["MAIL FROM <a@example.com>"; "NOOP"]) "" "")
          = Some (s', None))
    /\ rx (conn s') = crlfLines ["NOOP"]
    /\ history s' = [] ++ [EvCommand "MAIL FROM <a@example.com>"]
    /\ tx (conn s') = [] ++ ["550 Error: invalid RCPT TO syntax" +:+ CRLF].
Proof.
  apply (address_without_colon_ends_session Ref.EqualFold Ref.ParseMediaType
           Ref.NewReader Ref.callBackFn Ref.order
           (sessionAt (crlfLines ["MAIL FROM <a@example.com>"; "NOOP"]) "" "")
           ("MAIL FROM <a@example.com>" +:+ CRLF) (crlfLines ["NOOP"])).
  - done.
  - reflexivity.
  - left. reflexivity.
  - reflexivity.
Defined.

(** A second transaction in a session whose envelope is set. *)
Definition secondTransaction : Session :=
  sessionAt (crlfLines (["DATA"] ++ simpleMessage ++ ["."]))
    "from@example.com" "to@example.com".

Lemma envelope_survives_other_commands_witness :
  (commandKind (TrimSpace ("DATA" +:+ CRLF)) <> MAIL_FROM ->
   after (fun s' => from s' = from secondTransaction)
     (iteration Ref.EqualFold Ref.ParseMediaType Ref.NewReader Ref.callBackFn
        Ref.order secondTransaction))
  /\ (commandKind (TrimSpace ("DATA" +:+ CRLF)) <> RCPT_TO ->
      after (fun s' => to s' = to secondTransaction)
        (iteration Ref.EqualFold Ref.ParseMediaType Ref.NewReader
           Ref.callBackFn Ref.order secondTransaction)).
Proof.
  apply (envelope_survives_other_commands Ref.EqualFold Ref.ParseMediaType
           Ref.NewReader Ref.callBackFn Ref.order secondTransaction
           ("DATA" +:+ CRLF) (crlfLines (simpleMessage ++ ["."]))).
  reflexivity.
Defined.

Example second_transaction_keeps_envelope :
  exists s',
    iteration Ref.EqualFold Ref.ParseMediaType Ref.NewReader Ref.callBackFn
      Ref.order secondTransaction = Continue s'
    /\ from s' = "from@example.com" /\ to s' = "to@example.com"
    /\ dispatched (history s')
       = [mkMailMessage "from@example.com" "to@example.com" "test subject"
            "test body" ""].
Proof. eexists. split; [by vm_compute | done]. Qed.

Lemma data_without_message_ends_session_witness :
  exists s',
    iteration Ref.EqualFold Ref.ParseMediaType Ref.NewReader Ref.callBackFn
      Ref.order (sessionAt (crlfLines ["DATA"; " "; "."; "NOOP"]) "a" "b")
    = Return s' None
    /\ dispatched (history s') = dispatched []
    /\ tx (conn s')
       = [] ++ [startMailInput; "550 Error reading mail data" +:+ CRLF].
Proof.
  apply (proj2 (proj2
           (data_without_message_ends_session Ref.EqualFold
              Ref.ParseMediaType Ref.NewReader Ref.callBackFn Ref.order))
           (sessionAt (crlfLines ["DATA"; " "; "."; "NOOP"]) "a" "b")
           ("DATA" +:+ CRLF) (crlfLines [" "; "."; "NOOP"])
           (crlfLines ["NOOP"])).
  - done.
  - reflexivity.
  - reflexivity.
  - reflexivity.
Defined.

(* ===================================================================== *)
(** ** How a session ends                                                *)
(* ===================================================================== *)

(** The writer holds no reply that is still to be flushed: its buffer is
    empty unless a write has failed, after which no write goes through. *)
Definition flushed (c : Conn) : Prop := werr c = None -> wbuf c = "".

(** The replies after which [handleConnection] returns without error. *)
Definition closing (msg : string) : Prop :=
  msg = "221 Bye" +:+ CRLF \/ HasPrefix msg "550 Error" = true.

(** A round keeps the writer flushed, and when it leaves
    [handleConnection] without error, the last chunk that reached the
    client is a closing reply. *)
Definition endsWell (o : Outcome) : Prop :=
  match o with
  | Continue s' => flushed (conn s')
  | Return s' None =>
      exists msg, last (tx (conn s')) = Some msg /\ closing msg
  | Return s' (Some _) => True
  end.

Lemma reply_endsWell (s : Session) (msg wrap : string)
    (k : Session -> Outcome) :
  flushed (conn s) -> msg <> "" ->
  (forall c', werr c' = None -> wbuf c' = "" ->
              tx c' = tx (conn s) ++ [msg] -> rx c' = rx (conn s) ->
              endsWell (k (set_conn s c'))) ->
  endsWell (writeOrReturn s msg wrap (fun s => flushOrReturn s k)).
Proof.
  intros Hf Hm Hk. unfold writeOrReturn, WriteString.
  destruct (werr (conn s)) as [e|] eqn:He; [done|].
  rewrite (Hf He). unfold flushOrReturn, Flush. cbn.
  destruct (String.eqb_spec msg ""); [done|].
  destruct (wquota (conn s)) as [[|q]|]; [done| |]; by apply Hk.
Qed.

Lemma reply_ignore_endsWell (s : Session) (msg : string)
    (k : Session -> Outcome) :
  flushed (conn s) -> msg <> "" ->
  (forall c', werr c' = None -> wbuf c' = "" ->
              tx c' = tx (conn s) ++ [msg] -> rx c' = rx (conn s) ->
              endsWell (k (set_conn s c'))) ->
  endsWell (flushOrReturn (writeIgnore s msg) k).
Proof.
  intros Hf Hm Hk. unfold writeIgnore, WriteString.
  destruct (werr (conn s)) as [e|] eqn:He.
  - unfold flushOrReturn, Flush. cbn. by rewrite He.
  - rewrite (Hf He). unfold flushOrReturn, Flush. cbn.
    destruct (String.eqb_spec msg ""); [done|].
    destruct (wquota (conn s)) as [[|q]|]; [done| |]; by apply Hk.
Qed.

Lemma endsWell_returnNil (s : Session) (c' : Conn) (msg : string) :
  tx c' = tx (conn s) ++ [msg] -> closing msg ->
  endsWell (returnNil (set_conn s c')).
Proof. intros Htx Hc. exists msg. cbn. by rewrite Htx, last_snoc. Qed.

Lemma endsWell_Continue (s : Session) (c' : Conn) :
  werr c' = None -> wbuf c' = "" -> endsWell (Continue (set_conn s c')).
Proof. by intros He Hb _. Qed.

Lemma handleEHLO_flushed (c : Conn) : flushed (handleEHLO c).
Proof.
  destruct c as [r re d b [e|] q wf t cl]; [by intros He|].
  unfold handleEHLO, WriteString, Flush, flushed. cbn.
  match goal with
  | |- context [String.eqb ?x ""] => destruct (String.eqb x "") eqn:E
  end.
  - apply String.eqb_eq in E. by destruct b.
  - by destruct q as [[|q]|].
Qed.
